(** * CachedBus: cached reads of hardware input lines

    A shallow embedding of [src/cache_bus.h] (namespace [Cached]): the
    per-line wrapper [InputRead] with its two kinds [Digital] and [Analog],
    the homogeneous [Bus<T, N>] and the heterogeneous [VBus<T...>].

    Member functions are state transformers over the object and the
    hardware; every call made on a hardware line is recorded in a trace, so
    that the order of sampling can be stated. *)

From Stdlib Require Import ZArith String Eqdep_dec.
From Stdlib Require Import Floats.SpecFloat.
From stdpp Require Import base tactics option list.

Local Open Scope Z_scope.
Local Open Scope nat_scope.

(** ** Kinds and value types *)

(** The two concrete line classes of the header. *)
Inductive Kind : Type := Digital | Analog.

Global Instance Kind_eq_dec : EqDecision Kind.
Proof. solve_decision. Defined.

(** [assoc_data_type<Digital>::type = int], [assoc_data_type<Analog>::type =
    float].  An [int] is kept as a [Z] (the header does no arithmetic on it
    apart from the polarity flip), a [float] as an IEEE value. *)
Definition assoc_data_type (k : Kind) : Type :=
  match k with
  | Digital => Z
  | Analog => spec_float
  end.

(** A value together with its static type. *)
Definition Value : Type := { k : Kind & assoc_data_type k }.

Definition as_value {k : Kind} (v : assoc_data_type k) : Value := existT k v.

(** Value-initialisation ([int{}], [float{}]). *)
Definition value_init (k : Kind) : assoc_data_type k :=
  match k with
  | Digital => 0%Z
  | Analog => S754_zero false
  end.

(** The implicit arithmetic conversions of the C++ implementation in use,
    needed where an [int] is assigned to a [float] field or the reverse. *)
Class Conversions : Type := {
  int_to_float : Z → spec_float;
  float_to_int : spec_float → Z
}.

Definition convert `{Conversions} (from to : Kind)
  : assoc_data_type from → assoc_data_type to :=
  match from, to with
  | Digital, Digital => λ v, v
  | Analog, Analog => λ v, v
  | Digital, Analog => int_to_float
  | Analog, Digital => float_to_int
  end.

(** ** Hardware *)

(** A hardware line ([DigitalIn&] or [AnalogIn&]) is named by a number. *)
Definition Pin : Type := nat.

(** The lines: what line [p] of kind [k] yields when it is read as the
    [n]-th hardware read overall. *)
Record World : Type := {
  signal : ∀ k : Kind, Pin → nat → assoc_data_type k;
  clock : nat
}.

(** One call of [read(inverse_read)] reaching a line, with the raw value the
    line produced. *)
Record Event : Type := {
  line : Pin;
  inverse : bool;
  raw : Value
}.

Definition OUT_OF_BOUNDS_ERROR : string := "error: Bus index out of bounds".

(** ** Outcomes *)

Inductive fault : Type :=
| Thrown (what : string)       (* a C++ exception leaves the call *)
| StrayAccess (index : nat)    (* [list[index]] evaluated past the array *)
| IllFormed (what : string).   (* the instantiation does not build *)

Inductive outcome (A : Type) : Type :=
| Done (a : A)
| Abort (f : fault).
Arguments Done {A} a.
Arguments Abort {A} f.

(** A member function: runs on a state, returns a result, the new state and
    the hardware calls it made, in order. *)
Definition Exec (St A : Type) : Type := St → outcome (A * St * list Event).

Definition ret {St A} (a : A) : Exec St A := λ st, Done (a, st, []).

Definition bind {St A B} (m : Exec St A) (k : A → Exec St B) : Exec St B :=
  λ st,
    match m st with
    | Done (a, st', t) =>
        match k a st' with
        | Done (b, st'', t') => Done (b, st'', t ++ t')
        | Abort f => Abort f
        end
    | Abort f => Abort f
    end.

Notation "'let*' x := m 'in' k" := (bind m (λ x, k))
  (at level 10, x pattern, m at level 100, k at level 200).

Definition static_assert {St A} (cond : bool) (what : string)
    (body : Exec St A) : Exec St A :=
  if cond then body else λ _, Abort (IllFormed what).

(** ** InputRead<In, Data> *)

(** The members [in] and [data]. *)
Record InputRead (k : Kind) : Type := {
  in_ : Pin;
  data : assoc_data_type k
}.
Arguments in_ {k} _.
Arguments data {k} _.

(** The hardware after one more read. *)
Definition tick (w : World) : World :=
  {| signal := signal w; clock := S (clock w) |}.

(** Reading the line behind a wrapper: the line answers with its current
    level and the hardware read count advances. *)
Definition sample (k : Kind) (p : Pin) (inverse_read : bool) (w : World)
  : assoc_data_type k * World * list Event :=
  let r := signal w k p (clock w) in
  (r, tick w, [ {| line := p; inverse := inverse_read; raw := as_value r |} ]).

Module InputRead.

(** [InputRead(In &in) : in(in) {}] as an element of a bus: only [in] is
    initialised.  [storage] is a stand-in for the indeterminate [data], so
    that the array has a value at every position; nothing may be concluded
    from it, and only what holds for every [storage] says anything about
    the code.  [Wrapper.ctor] below is the constructor itself. *)
Definition ctor (k : Kind) (in' : Pin) (storage : assoc_data_type k)
  : InputRead k :=
  Build_InputRead k in' storage.

(** [Data read_cached() { return data; }] *)
Definition read_cached {k} : Exec (InputRead k * World) (assoc_data_type k) :=
  λ '(self, w), Done (data self, (self, w), []).

(** [operator Data() { return data; }] *)
Definition operator_Data {k} : Exec (InputRead k * World) (assoc_data_type k) :=
  λ '(self, w), Done (data self, (self, w), []).

End InputRead.

(** The polarity flip of a binary sample, [0 <-> 1]. *)
Definition flip (r : Z) : Z := if (r =? 0)%Z then 1%Z else 0%Z.

Module Digital.

(** Modelled from the spec: [int Digital::read(bool inverse_read)] is
    declared in the header and defined outside it.  "Invokes the
    underlying line's sample, applies inversion semantics appropriate to
    the kind, stores the result as the new cache value, returns it.  For
    binary kinds, inverted=true flips the sampled bit (0<->1)." *)
Definition read (inverse_read : bool) : Exec (InputRead Digital * World) Z :=
  λ '(self, w),
    let '(r, w', t) := sample Digital (in_ self) inverse_read w in
    let v := if inverse_read then flip r else r in
    Done (v, (Build_InputRead Digital (in_ self) v, w'), t).

End Digital.

Module Analog.

(** Modelled from the spec: [float Analog::read(bool inverse_read)] is
    declared in the header and defined outside it.  "For analog kinds,
    the inversion flag is accepted but currently has no effect on the
    value." *)
Definition read (inverse_read : bool)
  : Exec (InputRead Analog * World) spec_float :=
  λ '(self, w),
    let '(r, w', t) := sample Analog (in_ self) inverse_read w in
    Done (r, (Build_InputRead Analog (in_ self) r, w'), t).

End Analog.

(** The virtual call [read(inverse_read)] on an [InputRead] of kind [k]. *)
Definition virtual_read (k : Kind) (inverse_read : bool)
  : Exec (InputRead k * World) (assoc_data_type k) :=
  match k with
  | Digital => Digital.read inverse_read
  | Analog => Analog.read inverse_read
  end.

(** What a read of kind [k] stores, given the raw sample. *)
Definition polarity (k : Kind) (inverse_read : bool)
  : assoc_data_type k → assoc_data_type k :=
  match k with
  | Digital => λ r, if inverse_read then flip r else r
  | Analog => λ r, r
  end.

(** ** One wrapper from its construction on *)

(** The member [Data data] over the life of an object.  The initialiser
    list of the constructor names [in] only, so [data] is indeterminate
    until a read assigns it. *)
Inductive Member (A : Type) : Type :=
| Indeterminate
| Assigned (a : A).
Arguments Indeterminate {A}.
Arguments Assigned {A} a.

(** An [InputRead] object with what is known of its [data]. *)
Record Wrapper (k : Kind) : Type := {
  bound : Pin;
  member : Member (assoc_data_type k)
}.
Arguments bound {k} _.
Arguments member {k} _.

Module Wrapper.

(** [InputRead(In &in) : in(in) {}] *)
Definition ctor (k : Kind) (in' : Pin) : Wrapper k :=
  {| bound := in'; member := Indeterminate |}.

(** [Data read_cached() { return data; }]: the member as it is.  On an
    object that no read has assigned, what comes back is indeterminate. *)
Definition read_cached {k}
  : Exec (Wrapper k * World) (Member (assoc_data_type k)) :=
  λ '(self, w), Done (member self, (self, w), []).

(** Modelled from the spec: the virtual [read(inverse_read)], defined
    outside the header, on an object in any state of its life; the same
    read as [Digital.read] and [Analog.read]: "invokes the underlying
    line's sample, applies inversion semantics appropriate to the kind,
    stores the result as the new cache value, returns it". *)
Definition read (k : Kind) (inverse_read : bool)
  : Exec (Wrapper k * World) (assoc_data_type k) :=
  λ '(self, w),
    let '(r, w', t) := sample k (bound self) inverse_read w in
    let v := polarity k inverse_read r in
    Done (v, ({| bound := bound self; member := Assigned v |}, w'), t).

End Wrapper.

(** A wrapper whose [data] has been assigned, seen as an object of the
    life model. *)
Definition assigned {k} (self : InputRead k) : Wrapper k :=
  {| bound := in_ self; member := Assigned (data self) |}.

(** ** Bus<T, N> *)

(** The member [T list[N]]; [N] is the extent of the array. *)
Abbreviation Bus T := (list (InputRead T)).

(** [list[i].m(...)]: a member call on element [i] of the array.  Nothing
    checks [i]: past the array the access is a stray one. *)
Definition at_index {E A} (i : nat) (m : Exec (E * World) A)
  : Exec (list E * World) A :=
  λ '(l, w),
    match l !! i with
    | None => Abort (StrayAccess i)
    | Some e =>
        match m (e, w) with
        | Done (a, (e', w'), t) => Done (a, (<[i:=e']> l, w'), t)
        | Abort f => Abort f
        end
    end.

(** [for (auto &in : list) body(in);] *)
Fixpoint for_each {E} (body : Exec (E * World) unit) (l : list E) (w : World)
  : outcome (list E * World * list Event) :=
  match l with
  | [] => Done ([], w, [])
  | e :: rest =>
      match body (e, w) with
      | Done (_, (e', w'), t) =>
          match for_each body rest w' with
          | Done (rest', w'', t') => Done (e' :: rest', w'', t ++ t')
          | Abort f => Abort f
          end
      | Abort f => Abort f
      end
  end.

(** The default argument [bool inverse_read = false]. *)
Definition inverse_read_default : bool := false.

Module Bus.

(** The template parameter [N], read off the array. *)
Definition N {T} : Exec (Bus T * World) nat :=
  λ '(self, w), Done (length self, (self, w), []).

(** [Bus(PT&& ...list) : list {list...} {}] on [N] lines: every element is
    built by [InputRead(In&)]; any other number of arguments does not
    build.  [args] pairs each line with what its [data] storage holds. *)
Definition ctor (T : Kind) (N : nat) (args : list (Pin * assoc_data_type T))
  : outcome (Bus T) :=
  if length args =? N
  then Done (map (λ a, InputRead.ctor T a.1 a.2) args)
  else Abort (IllFormed "initializer count").

(** [auto operator [](size_t index)]: the guard is there, its [throw] is
    commented out, and the access follows in every case. *)
Definition operator_index {T} (index : nat)
  : Exec (Bus T * World) (assoc_data_type T) :=
  let* N := N in
  let* _ := (if N <=? index then ret () else ret ()) in
  at_index index InputRead.read_cached.

(** [void read_all(bool inverse_read)] *)
Definition read_all {T} (inverse_read : bool) : Exec (Bus T * World) unit :=
  λ '(self, w),
    match for_each (let* _ := virtual_read T inverse_read in ret ()) self w with
    | Done (self', w', t) => Done ((), (self', w'), t)
    | Abort f => Abort f
    end.

(** [template <size_t I> auto get()] *)
Definition get {T} (I : nat) : Exec (Bus T * World) (assoc_data_type T) :=
  let* N := N in
  static_assert (I <? N) OUT_OF_BOUNDS_ERROR
    (at_index I InputRead.read_cached).

(** [template <size_t I> void read(bool inverse_read)] when [Index] is
    empty, [template <size_t I, size_t In, size_t ...Index> void
    read(bool inverse_read)] otherwise; the latter recurses as
    [read<In, Index...>()], without an argument. *)
Fixpoint read {T} (I : nat) (Index : list nat) (inverse_read : bool)
  : Exec (Bus T * World) unit :=
  match Index with
  | [] =>
      let* N := N in
      static_assert (I <? N) OUT_OF_BOUNDS_ERROR
        (let* _ := at_index I (virtual_read T inverse_read) in ret ())
  | In :: Index' =>
      let* N := N in
      static_assert (I <? N) OUT_OF_BOUNDS_ERROR
        (let* _ := at_index I (virtual_read T inverse_read) in
         read In Index' inverse_read_default)
  end.

(** [void read(std::initializer_list<size_t> ids, bool inverse_read)]:
    again a guard with its [throw] commented out. *)
Fixpoint read_ids {T} (ids : list nat) (inverse_read : bool)
  : Exec (Bus T * World) unit :=
  match ids with
  | [] => ret ()
  | id :: ids' =>
      let* N := N in
      let* _ := (if N <=? id then ret () else ret ()) in
      let* _ := at_index id (virtual_read T inverse_read) in
      read_ids ids' inverse_read
  end.

End Bus.

(** ** VBus<T...> *)

(** [std::tuple]: one field per kind of the list, each of the type [F]
    gives that kind. *)
Inductive tuple (F : Kind → Type) : list Kind → Type :=
| tnil : tuple F []
| tcons {k : Kind} {ks : list Kind} (x : F k) (xs : tuple F ks)
    : tuple F (k :: ks).
Arguments tnil {F}.
Arguments tcons {F k ks} x xs.

(** The member [std::tuple<T...> list]. *)
Abbreviation VBus T := (tuple InputRead T).

(** [using data_bus = std::tuple<assoc_data_type_t<T>...>] *)
Abbreviation data_bus T := (tuple assoc_data_type T).

(** Field [I] of a tuple, with its type; [None] where [std::get<I>] does not
    build. *)
Fixpoint tget {F T} (I : nat) (t : tuple F T) {struct t}
  : option { k : Kind & F k } :=
  match t with
  | tnil => None
  | tcons x xs =>
      match I with
      | 0 => Some (existT _ x)
      | S I' => tget I' xs
      end
  end.

(** The default constructor of [std::tuple] value-initialises each field. *)
Fixpoint tuple_init (ks : list Kind) : data_bus ks :=
  match ks with
  | [] => tnil
  | k :: ks' => tcons (value_init k) (tuple_init ks')
  end.

(** [std::get<J>(data) = val]: the value is converted to the type of the
    field it is assigned to. *)
Fixpoint assign `{Conversions} {ks} (J : nat) (val : Value)
    (data : data_bus ks) {struct data} : option (data_bus ks) :=
  match data with
  | tnil => None
  | @tcons _ k _ x xs =>
      match J with
      | 0 => Some (tcons (convert (projT1 val) k (projT2 val)) xs)
      | S J' => tcons x <$> assign J' val xs
      end
  end.

Definition ill_formed {St A} (what : string) : Exec St A :=
  λ _, Abort (IllFormed what).

Definition assign_field `{Conversions} {St ks} (J : nat) (val : Value)
    (data : data_bus ks) : Exec St (data_bus ks) :=
  match assign J val data with
  | Some data' => ret data'
  | None => ill_formed "tuple index out of bounds"
  end.

(** [std::get<I>(list).m(...)]: a member call on field [I] of the member
    tuple. *)
Fixpoint at_get {F A T} (I : nat) (m : ∀ k, Exec (F k * World) A)
    (t : tuple F T) (w : World) {struct t}
  : outcome (A * (tuple F T * World) * list Event) :=
  match t in tuple _ T
        return outcome (A * (tuple F T * World) * list Event) with
  | tnil => Abort (IllFormed "tuple index out of bounds")
  | @tcons _ k _ x xs =>
      match I with
      | 0 =>
          match m k (x, w) with
          | Done (a, (x', w'), tr) => Done (a, (tcons x' xs, w'), tr)
          | Abort f => Abort f
          end
      | S I' =>
          match at_get I' m xs w with
          | Done (a, (xs', w'), tr) => Done (a, (tcons x xs', w'), tr)
          | Abort f => Abort f
          end
      end
  end.

(** The field types of [bound_data_bus<Ids...>]:
    [assoc_data_type_t<decltype(std::get<Ids>(list))>...]. *)
Fixpoint bound_kinds (T : list Kind) (Ids : list nat) : option (list Kind) :=
  match Ids with
  | [] => Some []
  | Id :: Ids' =>
      k ← T !! Id; ks ← bound_kinds T Ids'; Some (k :: ks)
  end.

Module VBus.

(** [template <size_t I> auto get()] *)
Definition get {T} (I : nat) : Exec (VBus T * World) Value :=
  λ '(self, w),
    at_get I (λ k, let* v := InputRead.read_cached in ret (as_value v))
      self w.

(** [template <size_t I> auto read(bool inverse_read)] *)
Definition read {T} (I : nat) (inverse_read : bool)
  : Exec (VBus T * World) Value :=
  λ '(self, w),
    at_get I (λ k, let* v := virtual_read k inverse_read in ret (as_value v))
      self w.

(** [template <class DBus, size_t I> void read_iter(DBus &data, bool)]
    when [Index] is empty; otherwise the overload on
    [<DBus, I, In, Index...>], where [sizeof...(Index)] counts the
    positions after [In]. *)
Fixpoint read_iter `{Conversions} {T ks} (I : nat) (Index : list nat)
    (data : data_bus ks) (inverse_read : bool)
  : Exec (VBus T * World) (data_bus ks) :=
  match Index with
  | [] =>
      let* val := read I inverse_read in
      assign_field 0 val data
  | In :: Index' =>
      let* read_val := read I inverse_read in
      let* data' := assign_field (length Index' + 1) read_val data in
      read_iter In Index' data' inverse_read
  end.

(** [template <size_t I, size_t In, size_t ...Index>
    bound_data_bus<I, In, Index...> read(bool inverse_read)] *)
Definition read_list `{Conversions} {T} (I In : nat) (Index : list nat)
    (inverse_read : bool)
  : Exec (VBus T * World) { ks : list Kind & data_bus ks } :=
  match bound_kinds T (I :: In :: Index) with
  | None => ill_formed "tuple index out of bounds"
  | Some ks =>
      let dbus := tuple_init ks in
      let* dbus' := read_iter I (In :: Index) dbus inverse_read in
      ret (existT ks dbus')
  end.

(** The two overloads of [template <size_t I> read_all_iter(data_bus &data,
    bool inverse_read)].  [void_if_nil<I - 1u>] selects the first for
    [I = 1], [void_if_non_nil<I - 1u>] the second for every other [I].
    For [I = 0] the unsigned [I - 1u] is [SIZE_MAX]: the second overload
    is selected and its recursion instantiates [read<SIZE_MAX>], which no
    tuple has, so nothing builds. *)
Fixpoint read_all_iter `{Conversions} {T ks} (I : nat) (data : data_bus ks)
    (inverse_read : bool)
  : Exec (VBus T * World) (data_bus ks) :=
  match I with
  | 1 =>
      let* read_val := read 0 inverse_read in
      assign_field 0 read_val data
  | S I' =>
      let* read_val := read I inverse_read in
      let* data' := assign_field I read_val data in
      read_all_iter I' data' inverse_read
  | 0 =>
      let* read_val := read 0 inverse_read in
      let* data' := assign_field 0 read_val data in
      ill_formed "tuple index out of bounds"
  end.

(** [data_bus read_all(bool inverse_read)], starting the iteration at
    [std::tuple_size<decltype(list)>::value - 1u]; on an empty bus that
    index is [SIZE_MAX] and nothing builds. *)
Definition read_all `{Conversions} {T} (inverse_read : bool)
  : Exec (VBus T * World) (data_bus T) :=
  match length T with
  | 0 => ill_formed "tuple index out of bounds"
  | S last => read_all_iter last (tuple_init T) inverse_read
  end.

End VBus.

(** ** Sample data *)

(** Round-to-nearest and truncation, total on the values used below. *)
Definition trunc (f : spec_float) : Z :=
  match f with
  | S754_finite s m e =>
      let a := match e with
               | Z0 => Zpos m
               | Zpos n => (Zpos m * 2 ^ Zpos n)%Z
               | Zneg n => (Zpos m / 2 ^ Zpos n)%Z
               end in
      if s then (- a)%Z else a
  | _ => 0%Z
  end.

Definition plain_conversions : Conversions :=
  {| int_to_float := λ z, binary_normalize 24 128 z 0 false;
     float_to_int := trunc |}.

(** Lines that hold their level: a digital line [p] always reads [d p], an
    analog one [a p]. *)
Definition steady (d : Pin → Z) (a : Pin → spec_float) : World :=
  {| signal := λ k, match k with
                    | Digital => λ p _, d p
                    | Analog => λ p _, a p
                    end;
     clock := 0 |}.

(** [0.42f] *)
Definition f042 : spec_float := S754_finite false 14092861 (-25).
Definition f7 : spec_float := S754_finite false 7 0.

Definition dbus3 : Bus Digital :=
  [Build_InputRead Digital 10 5%Z; Build_InputRead Digital 11 6%Z;
   Build_InputRead Digital 12 7%Z].

(** A bus of kinds (binary, analog, binary). *)
Definition vbus3 : VBus [Digital; Analog; Digital] :=
  tcons (Build_InputRead Digital 20 5%Z)
    (tcons (Build_InputRead Analog 21 f7)
       (tcons (Build_InputRead Digital 22 7%Z) tnil)).

Definition world3 : World :=
  steady (λ p, if p =? 20 then 1%Z else 0%Z) (λ _, f042).

(** A two-wide digital bus and a two-kind heterogeneous one. *)
Definition dbus2 : Bus Digital :=
  [Build_InputRead Digital 10 5%Z; Build_InputRead Digital 11 6%Z].

Definition vbus2 : VBus [Digital; Digital] :=
  tcons (Build_InputRead Digital 20 5%Z)
    (tcons (Build_InputRead Digital 22 7%Z) tnil).

(** Records of the result types of the two sample buses. *)
Definition record3 (a : Z) (f : spec_float) (c : Z)
  : data_bus [Digital; Analog; Digital] :=
  tcons (k := Digital) a (tcons (k := Analog) f (tcons (k := Digital) c tnil)).

Definition record2 (a c : Z) : data_bus [Digital; Digital] :=
  tcons (k := Digital) a (tcons (k := Digital) c tnil).

(** Every digital line reads 1. *)
Definition all_high : World := steady (λ _, 1%Z) (λ _, f042).

(** ** Statement vocabulary *)

(** The hardware after [n] more reads. *)
Definition later (n : nat) (w : World) : World :=
  {| signal := signal w; clock := clock w + n |}.

(** The call a wrapper of kind [k] on line [p] makes when it is read as the
    [n]-th read after [w]. *)
Definition call (k : Kind) (p : Pin) (inverse_read : bool) (w : World)
    (n : nat) : Event :=
  {| line := p; inverse := inverse_read;
     raw := as_value (signal w k p (clock w + n)) |}.

(** What that read leaves in the wrapper. *)
Definition refreshed (k : Kind) (p : Pin) (inverse_read : bool) (w : World)
    (n : nat) : InputRead k :=
  Build_InputRead k p (polarity k inverse_read (signal w k p (clock w + n))).

(** The lines behind the positions of a bus, in position order. *)
Definition lines {T} (b : Bus T) : list Pin := in_ <$> b.

(** The flag the [j]-th position of a compile-time list is read with by
    [Bus::read<I, In, Index...>(inverse_read)]. *)
Definition flag_at (inverse_read : bool) (j : nat) : bool :=
  match j with
  | 0 => inverse_read
  | S _ => inverse_read_default
  end.

(** The kind and the line behind position [p] of a heterogeneous bus. *)
Definition line_of {T} (b : VBus T) (p : nat) : option (Kind * Pin) :=
  match tget p b with
  | Some (existT k c) => Some (k, in_ c)
  | None => None
  end.

(** What field [J] of a record holds after [std::get<J>(data) = v] for a
    sample [v] of kind [k], if the field is of kind [k']. *)
Definition stored `{Conversions} (k k' : Kind) (v : assoc_data_type k)
  : Value :=
  as_value (convert k k' v).

(** The raw samples of a trace. *)
Definition raws (t : list Event) : list Value := map raw t.

(** ** Sequences of bus operations *)

(** What one operation hands back to its caller. *)
Inductive Returned : Type :=
| Void
| Single (v : Value)
| Fields (r : { ks : list Kind & data_bus ks }).

(** The calls a program can make on a homogeneous bus. *)
Inductive BusOp : Type :=
| BusIndex (index : nat)
| BusGet (I : nat)
| BusReadAll (inverse_read : bool)
| BusRead (I : nat) (Index : list nat) (inverse_read : bool)
| BusReadIds (ids : list nat) (inverse_read : bool).

(** The calls a program can make on a heterogeneous bus. *)
Inductive VBusOp : Type :=
| VBusGet (I : nat)
| VBusReadAll (inverse_read : bool)
| VBusRead (I : nat) (inverse_read : bool)
| VBusReadList (I In : nat) (Index : list nat) (inverse_read : bool).

Definition Bus_call {T} (op : BusOp) : Exec (Bus T * World) Returned :=
  match op with
  | BusIndex index =>
      let* v := Bus.operator_index index in ret (Single (as_value v))
  | BusGet i => let* v := Bus.get i in ret (Single (as_value v))
  | BusReadAll inv => let* _ := Bus.read_all inv in ret Void
  | BusRead i Index inv => let* _ := Bus.read i Index inv in ret Void
  | BusReadIds ids inv => let* _ := Bus.read_ids ids inv in ret Void
  end.

Definition VBus_call `{Conversions} {T} (op : VBusOp)
  : Exec (VBus T * World) Returned :=
  match op with
  | VBusGet i => let* v := VBus.get i in ret (Single v)
  | VBusReadAll inv =>
      let* r := VBus.read_all inv in ret (Fields (existT T r))
  | VBusRead i inv => let* v := VBus.read i inv in ret (Single v)
  | VBusReadList i In Index inv =>
      let* r := VBus.read_list i In Index inv in ret (Fields r)
  end.

Definition sample_program : list BusOp :=
  [BusReadAll true; BusIndex 1; BusReadIds [2; 0] false; BusGet 0;
   BusRead 1 [2] true].

Definition sample_vprogram : list VBusOp :=
  [VBusReadAll false; VBusGet 1; VBusReadList 0 1 [2] true; VBusRead 1 false].

(** A program on a heterogeneous bus that reads from the cache only what it
    has sampled: [get<1>] comes after the list read, not after
    [read_all]. *)
Definition sampled_vprogram : list VBusOp :=
  [VBusReadAll false; VBusGet 2; VBusReadList 0 1 [2] true; VBusGet 1;
   VBusRead 1 false].

(** A program: the operations one after the other, their results
    collected. *)
Fixpoint run {St Op} (call : Op → Exec St Returned) (ops : list Op)
  : Exec St (list Returned) :=
  match ops with
  | [] => ret []
  | op :: ops' =>
      let* r := call op in
      let* rs := run call ops' in
      ret (r :: rs)
  end.

(** ** The overload of [read_all] with output slots *)

(** [std::tie(dargs...) = r]: slot by slot, each field of [r] converted to
    the type of the slot it is assigned to. *)
Fixpoint tie_assign `{Conversions} {T ks} (r : data_bus T)
    (dargs : data_bus ks) {struct dargs} : data_bus ks :=
  match dargs in tuple _ ks return data_bus ks with
  | tnil => tnil
  | @tcons _ k' _ x xs =>
      match r with
      | tnil => tcons x xs
      | @tcons _ k _ v vs => tcons (convert k k' v) (tie_assign vs xs)
      end
  end.

(** [template <bool InverseRead, class ...DataArgs>
    void read_all(DataArgs &...dargs)], whose body is
    [std::tie(dargs...) = read_all(InverseRead)].  The slots are [int] and
    [float] variables, of kinds [ks]; the function returns what they hold
    afterwards.  The tuple assignment builds only for as many slots as the
    bus has positions. *)
Definition VBus_read_all_tie `{Conversions} {T ks} (InverseRead : bool)
    (dargs : data_bus ks) : Exec (VBus T * World) (data_bus ks) :=
  if length ks =? length T
  then let* r := VBus.read_all InverseRead in ret (tie_assign r dargs)
  else ill_formed "tuple size".

(** ** Vocabulary for the whole interface *)

(** The lines behind the positions of a heterogeneous bus, in position
    order. *)
Fixpoint tlines {T} (b : VBus T) : list Pin :=
  match b with
  | tnil => []
  | tcons x xs => in_ x :: tlines xs
  end.

(** A member function is confined to the lines [L] gives for its object
    when a completed call leaves those lines as they were and makes
    hardware calls on them only. *)
Definition confined {St A} (L : St → list Pin) (m : Exec (St * World) A)
  : Prop :=
  ∀ s w a s' w' t,
    m (s, w) = Done (a, (s', w'), t) →
    L s' = L s ∧ Forall (λ e, line e ∈ L s) t.

(** ** Programs that stay inside the bus and read what they sampled *)

(** Every position the operation names is a position of a bus of width
    [n]. *)
Definition inside (n : nat) (op : BusOp) : Prop :=
  match op with
  | BusIndex i => i < n
  | BusGet i => i < n
  | BusReadAll _ => True
  | BusRead i Index _ => Forall (λ j, j < n) (i :: Index)
  | BusReadIds ids _ => Forall (λ j, j < n) ids
  end.

(** The same for a heterogeneous bus of [K] kinds; [read_all] builds from
    two kinds on. *)
Definition vinside (K : nat) (op : VBusOp) : Prop :=
  match op with
  | VBusGet i => i < K
  | VBusReadAll _ => 2 ≤ K
  | VBusRead i _ => i < K
  | VBusReadList i In Index _ => Forall (λ j, j < K) (i :: In :: Index)
  end.

(** The positions that have been sampled once the operation is done, if
    those of [S] had been before. *)
Definition sampled_by (op : BusOp) (S : nat → Prop) : nat → Prop :=
  match op with
  | BusIndex _ => S
  | BusGet _ => S
  | BusReadAll _ => λ _, True
  | BusRead i Index _ => λ p, S p ∨ p ∈ i :: Index
  | BusReadIds ids _ => λ p, S p ∨ p ∈ ids
  end.

(** On a heterogeneous bus of [K] kinds [read_all] samples every position
    but 1. *)
Definition vsampled_by (K : nat) (op : VBusOp) (S : nat → Prop)
  : nat → Prop :=
  match op with
  | VBusGet _ => S
  | VBusReadAll _ => λ p, S p ∨ (p < K ∧ p ≠ 1)
  | VBusRead i _ => λ p, S p ∨ p = i
  | VBusReadList i In Index _ => λ p, S p ∨ p ∈ i :: In :: Index
  end.

(** The operation reads from the cache only a position of [S]. *)
Definition reads_sampled (op : BusOp) (S : nat → Prop) : Prop :=
  match op with
  | BusIndex i => S i
  | BusGet i => S i
  | _ => True
  end.

Definition vreads_sampled (op : VBusOp) (S : nat → Prop) : Prop :=
  match op with
  | VBusGet i => S i
  | _ => True
  end.

(** A program reads from the cache only positions that were sampled: those
    of [S] to begin with, then those an earlier operation of the program
    sampled. *)
Fixpoint well_sampled {Op} (reads : Op → (nat → Prop) → Prop)
    (step : Op → (nat → Prop) → nat → Prop) (S : nat → Prop)
    (ops : list Op) : Prop :=
  match ops with
  | [] => True
  | op :: ops' => reads op S ∧ well_sampled reads step (step op S) ops'
  end.

(** The positions sampled when the program is done. *)
Fixpoint sampled_after {Op} (step : Op → (nat → Prop) → nat → Prop)
    (S : nat → Prop) (ops : list Op) : nat → Prop :=
  match ops with
  | [] => S
  | op :: ops' => sampled_after step (step op S) ops'
  end.

(** Two homogeneous buses over the same lines, with the same cached value
    at the positions of [S]; anywhere else the caches may differ. *)
Definition agree {T} (S : nat → Prop) (b1 b2 : Bus T) : Prop :=
  lines b1 = lines b2 ∧ ∀ i, S i → b1 !! i = b2 !! i.

(** The same for two heterogeneous buses. *)
Definition vagree {T} (S : nat → Prop) (b1 b2 : VBus T) : Prop :=
  (∀ p, line_of b1 p = line_of b2 p) ∧ ∀ i, S i → tget i b1 = tget i b2.

(** A member function takes objects related by [R] to objects related by
    [R'] when two completed runs of it, from objects related by [R] and on
    any two states of the hardware, return the same result and end in
    objects related by [R'] as soon as the lines answered the same. *)
Definition settled_between {St A} (R R' : St → St → Prop)
    (m : Exec (St * World) A) : Prop :=
  ∀ s1 s2 w1 w2 a1 s1' w1' t1 a2 s2' w2' t2 u1 u2,
    R s1 s2 →
    m (s1, w1) = Done (a1, (s1', w1'), t1) →
    m (s2, w2) = Done (a2, (s2', w2'), t2) →
    raws (t1 ++ u1) = raws (t2 ++ u2) →
    a1 = a2 ∧ R' s1' s2' ∧ raws u1 = raws u2.

(** Lines whose level changes from one hardware read to the next: a binary
    line [p] reads the parity of [p + n + shift] at read [n]. *)
Definition blinking (shift : nat) : World :=
  {| signal := λ k,
       match k with
       | Digital => λ p n, Z.of_nat ((p + n + shift) mod 2)
       | Analog => λ p n, if Nat.even (p + n + shift) then f042 else f7
       end;
     clock := 0 |}.

(** A three-wide binary bus on the lines of [dbus3], with other cached
    values. *)
Definition dbus3' : Bus Digital :=
  [Build_InputRead Digital 10 0%Z; Build_InputRead Digital 11 1%Z;
   Build_InputRead Digital 12 0%Z].

(** A bus of kinds (binary, analog, binary) on the lines of [vbus3], with
    other cached values. *)
Definition vbus3' : VBus [Digital; Analog; Digital] :=
  tcons (Build_InputRead Digital 20 0%Z)
    (tcons (Build_InputRead Analog 21 f042)
       (tcons (Build_InputRead Digital 22 1%Z) tnil)).

(** Two one-wide binary buses on the same line, caching 0 and 1. *)
Definition dbus1_low : Bus Digital := [Build_InputRead Digital 10 0%Z].
Definition dbus1_high : Bus Digital := [Build_InputRead Digital 10 1%Z].

(** * Properties *)

(** ** One wrapper *)

Lemma later_0 w : later 0 w = w.
Proof. destruct w as [sg c]. unfold later; simpl. f_equal. lia. Qed.

Lemma later_tick n w : later n (tick w) = later (S n) w.
Proof. unfold later, tick; simpl. f_equal. lia. Qed.

Lemma call_tick k p inv w n : call k p inv (tick w) n = call k p inv w (S n).
Proof. unfold call, tick; simpl. do 3 f_equal. lia. Qed.

Lemma refreshed_tick k p inv w n :
  refreshed k p inv (tick w) n = refreshed k p inv w (S n).
Proof. unfold refreshed, tick; simpl. do 3 f_equal. lia. Qed.

(** A read always completes: one call on the wrapper's line, the sample
    (with its polarity applied) returned and stored. *)
Lemma virtual_read_eq k inv (self : InputRead k) w :
  virtual_read k inv (self, w)
  = Done (data (refreshed k (in_ self) inv w 0),
          (refreshed k (in_ self) inv w 0, tick w),
          [call k (in_ self) inv w 0]).
Proof.
  unfold refreshed, call. rewrite Nat.add_0_r.
  destruct k; reflexivity.
Qed.

(** On an object whose [data] has been assigned, the reads of the life
    model are the reads of the record. *)
Lemma Wrapper_read_assigned k inv (self : InputRead k) w :
  Wrapper.read k inv (assigned self, w)
  = Done (data (refreshed k (in_ self) inv w 0),
          (assigned (refreshed k (in_ self) inv w 0), tick w),
          [call k (in_ self) inv w 0])
  ∧ Wrapper.read_cached (assigned self, w)
    = Done (Assigned (data self), (assigned self, w), []).
Proof.
  split; [|reflexivity].
  unfold Wrapper.read, assigned, refreshed, call, sample. simpl.
  by rewrite Nat.add_0_r.
Qed.

(** C5, as the code has it: whatever state an [InputRead] object is in,
    freshly constructed or read before, after a [read] its
    [read_cached()] returns the value that read stored, the sample with
    its polarity applied, until the next [read]. *)
Theorem C5_read_cached_returns_latest_sample :
  (∀ k inv (self : Wrapper k) w,
     ∃ v self' w' t,
       Wrapper.read k inv (self, w) = Done (v, (self', w'), t)
       ∧ v = polarity k inv (signal w k (bound self) (clock w))
       ∧ ∀ w'',
           Wrapper.read_cached (self', w'')
           = Done (Assigned v, (self', w''), []))
  ∧ (∀ k inv (self : InputRead k) w,
       ∃ v self' w' t,
         virtual_read k inv (self, w) = Done (v, (self', w'), t)
         ∧ v = polarity k inv (signal w k (in_ self) (clock w))
         ∧ ∀ w'',
             InputRead.read_cached (self', w'') = Done (v, (self', w''), [])).
Proof.
  split.
  - intros k inv self w. unfold Wrapper.read, sample.
    do 4 eexists. split; [reflexivity|]. split; [reflexivity|].
    intros w''. reflexivity.
  - intros k inv self w. rewrite virtual_read_eq.
    do 4 eexists. split; [reflexivity|]. split.
    + simpl. by rewrite Nat.add_0_r.
    + intros w''. reflexivity.
Qed.

(** C5 refuted as stated: the constructor binds the line and leaves [data]
    alone, so [read_cached()] on a freshly constructed binary wrapper hands
    back an indeterminate value, not the default 0. *)
Lemma C5_fresh_read_is_indeterminate :
  Wrapper.read_cached (Wrapper.ctor Digital 10, all_high)
  = Done (Indeterminate, (Wrapper.ctor Digital 10, all_high), [])
  ∧ Indeterminate ≠ Assigned (value_init Digital).
Proof. split; [reflexivity | discriminate]. Qed.

(** C9: the conversion to the value type returns exactly what
    [read_cached()] returns; both leave the wrapper and the hardware as
    they were and make no hardware call. *)
Theorem C9_conversion_is_read_cached k (self : InputRead k) (w : World) :
  InputRead.operator_Data (self, w) = InputRead.read_cached (self, w)
  ∧ InputRead.read_cached (self, w) = Done (data self, (self, w), []).
Proof. split; reflexivity. Qed.

(** ** The homogeneous bus *)

Section Homogeneous.

Context {T : Kind}.
Implicit Types (b self : Bus T) (w : World) (inv : bool).

Lemma for_each_read inv b w :
  ∃ b' t,
    for_each (let* _ := virtual_read T inv in ret ()) b w
    = Done (b', later (length b) w, t)
    ∧ length b' = length b
    ∧ length t = length b
    ∧ ∀ i c, b !! i = Some c →
        t !! i = Some (call T (in_ c) inv w i)
        ∧ b' !! i = Some (refreshed T (in_ c) inv w i).
Proof.
  revert w. induction b as [|c rest IH]; intros w.
  - exists [], []. rewrite later_0. by repeat split.
  - destruct (IH (tick w)) as (rest' & t' & Hrun & Hlen & Hlt & Hat).
    simpl. unfold bind at 1. rewrite virtual_read_eq. simpl.
    rewrite Hrun. rewrite later_tick.
    eexists _, _. split; [reflexivity|].
    split; [simpl; lia|]. split; [simpl; lia|].
    intros [|i] c' Hc; simpl in Hc.
    + by inversion Hc; subst.
    + destruct (Hat i c' Hc) as [Ht Hb]. simpl.
      by rewrite Ht, Hb, call_tick, refreshed_tick.
Qed.

(** C6: [read_all(inverse_read)] always completes; it makes exactly [N]
    hardware calls, the [i]-th of them on the line of position [i] with
    the given flag, and leaves in position [i] the value sampled by that
    call. *)
Theorem C6_read_all_ascending inv b w :
  ∃ b' w' t,
    Bus.read_all inv (b, w) = Done ((), (b', w'), t)
    ∧ length b' = length b
    ∧ length t = length b
    ∧ ∀ i c, b !! i = Some c →
        t !! i = Some (call T (in_ c) inv w i)
        ∧ b' !! i = Some (refreshed T (in_ c) inv w i).
Proof.
  destruct (for_each_read inv b w) as (b' & t & Hrun & Hlen & Hlt & Hat).
  exists b', (later (length b) w), t. unfold Bus.read_all.
  by rewrite Hrun.
Qed.

Lemma at_index_read inv b w i c :
  b !! i = Some c →
  at_index i (virtual_read T inv) (b, w)
  = Done (data (refreshed T (in_ c) inv w 0),
          (<[i := refreshed T (in_ c) inv w 0]> b, tick w),
          [call T (in_ c) inv w 0]).
Proof. intros H. unfold at_index. by rewrite H, virtual_read_eq. Qed.

Lemma at_index_stray {A} (m : Exec (InputRead T * World) A) b w i :
  length b ≤ i → at_index i m (b, w) = Abort (StrayAccess i).
Proof.
  intros H. unfold at_index. by rewrite (lookup_ge_None_2 b i H).
Qed.

Lemma lines_insert b i c p inv w n :
  b !! i = Some c → p = in_ c →
  lines (<[i := refreshed T p inv w n]> b) = lines b.
Proof.
  intros H ->. unfold lines. rewrite list_fmap_insert. simpl.
  apply list_insert_id. by rewrite list_lookup_fmap, H.
Qed.

(** One round of the loop of [read(ids, inverse_read)] on an entry that
    is inside the array. *)
Lemma read_ids_cons inv id ids b w c :
  b !! id = Some c →
  Bus.read_ids (id :: ids) inv (b, w)
  = match Bus.read_ids ids inv
            (<[id := refreshed T (in_ c) inv w 0]> b, tick w) with
    | Done (r, st, t) => Done (r, st, call T (in_ c) inv w 0 :: t)
    | Abort f => Abort f
    end.
Proof.
  intros H. simpl. unfold bind at 1. unfold Bus.N at 1.
  unfold bind at 1.
  replace ((if length b <=? id then ret () else ret ()) (b, w))
    with (Done ((), (b, w), @nil Event)) by (by destruct (_ <=? _)).
  unfold bind at 1. rewrite (at_index_read inv b w id c H).
  by destruct (Bus.read_ids ids inv _) as [[[[] ?] ?]|].
Qed.

(** The same round on an entry past the array: the guard does nothing and
    the access strays. *)
Lemma read_ids_stray inv id ids b w :
  length b ≤ id →
  Bus.read_ids (id :: ids) inv (b, w) = Abort (StrayAccess id).
Proof.
  intros H. simpl. unfold bind at 1. unfold Bus.N at 1.
  unfold bind at 1.
  replace ((if length b <=? id then ret () else ret ()) (b, w))
    with (Done ((), (b, w), @nil Event)) by (by destruct (_ <=? _)).
  unfold bind at 1. by rewrite at_index_stray.
Qed.

Lemma read_ids_run inv ids : ∀ b w,
  Forall (λ id, id < length b) ids →
  ∃ b' t,
    Bus.read_ids ids inv (b, w) = Done ((), (b', later (length ids) w), t)
    ∧ lines b' = lines b
    ∧ length t = length ids
    ∧ (∀ j id, ids !! j = Some id →
         ∃ p, lines b !! id = Some p ∧ t !! j = Some (call T p inv w j))
    ∧ (∀ p, p ∉ ids → b' !! p = b !! p).
Proof.
  induction ids as [|id ids IH]; intros b w Hin.
  - exists b, []. simpl. unfold ret. rewrite later_0.
    split; [done|]. split; [done|]. split; [done|]. split; [|done].
    intros j id H. by rewrite lookup_nil in H.
  - apply Forall_cons in Hin as [Hid Hin].
    destruct (lookup_lt_is_Some_2 b id Hid) as [c Hc].
    set (b1 := <[id := refreshed T (in_ c) inv w 0]> b).
    assert (Hl1 : lines b1 = lines b) by (by eapply lines_insert).
    destruct (IH b1 (tick w)) as (b' & t & Hrun & Hl & Hlt & Hat & Hfr).
    { unfold b1. by rewrite length_insert. }
    rewrite (read_ids_cons inv id ids b w c Hc). fold b1. rewrite Hrun.
    rewrite later_tick.
    eexists _, _. split; [reflexivity|].
    split; [congruence|]. split; [simpl; lia|]. split.
    + intros [|j] id' Hj; simpl in Hj.
      * inversion Hj; subst id'. exists (in_ c). split; [|done].
        unfold lines. by rewrite list_lookup_fmap, Hc.
      * destruct (Hat j id' Hj) as (p & Hp & Ht). exists p.
        rewrite <- Hl1. split; [done|]. simpl. by rewrite Ht, call_tick.
    + intros p Hp. apply not_elem_of_cons in Hp as [Hne Hp].
      rewrite (Hfr p Hp). unfold b1. by apply list_lookup_insert_ne.
Qed.

(** One step of [read<I, In, Index...>(inverse_read)], on a position that
    passes the static assertion. *)
Lemma read_cons inv I In Index b w c :
  b !! I = Some c →
  Bus.read I (In :: Index) inv (b, w)
  = match Bus.read In Index inverse_read_default
            (<[I := refreshed T (in_ c) inv w 0]> b, tick w) with
    | Done (r, st, t) => Done (r, st, call T (in_ c) inv w 0 :: t)
    | Abort f => Abort f
    end.
Proof.
  intros H. simpl. unfold bind at 1. unfold Bus.N at 1.
  pose proof (lookup_lt_Some _ _ _ H) as Hlt.
  apply Nat.ltb_lt in Hlt. rewrite Hlt. unfold static_assert.
  unfold bind at 1. rewrite (at_index_read inv b w I c H).
  by destruct (Bus.read In Index _ _) as [[[[] ?] ?]|].
Qed.

Lemma read_one inv I b w c :
  b !! I = Some c →
  Bus.read I [] inv (b, w)
  = Done ((), (<[I := refreshed T (in_ c) inv w 0]> b, tick w),
          [call T (in_ c) inv w 0]).
Proof.
  intros H. simpl. unfold bind at 1. unfold Bus.N at 1.
  pose proof (lookup_lt_Some _ _ _ H) as Hlt.
  apply Nat.ltb_lt in Hlt. rewrite Hlt. unfold static_assert.
  unfold bind at 1. by rewrite (at_index_read inv b w I c H).
Qed.

Lemma read_run Index : ∀ inv I b w,
  Forall (λ i, i < length b) (I :: Index) →
  ∃ b' t,
    Bus.read I Index inv (b, w)
    = Done ((), (b', later (S (length Index)) w), t)
    ∧ lines b' = lines b
    ∧ length t = S (length Index)
    ∧ (∀ j id, (I :: Index) !! j = Some id →
         ∃ p, lines b !! id = Some p
              ∧ t !! j = Some (call T p (flag_at inv j) w j))
    ∧ (∀ p, p ∉ I :: Index → b' !! p = b !! p).
Proof.
  induction Index as [|In Index IH]; intros inv I b w Hin;
    apply Forall_cons in Hin as [HI Hin];
    destruct (lookup_lt_is_Some_2 b I HI) as [c Hc].
  - rewrite (read_one inv I b w c Hc).
    eexists _, _. split; [by rewrite <- later_tick, later_0|].
    split; [by eapply lines_insert|]. split; [done|]. split.
    + intros [|j] id Hj; simpl in Hj; [|by rewrite lookup_nil in Hj].
      inversion Hj; subst id. exists (in_ c). split; [|done].
      unfold lines. by rewrite list_lookup_fmap, Hc.
    + intros p Hp. apply not_elem_of_cons in Hp as [Hne _].
      by apply list_lookup_insert_ne.
  - set (b1 := <[I := refreshed T (in_ c) inv w 0]> b).
    assert (Hl1 : lines b1 = lines b) by (by eapply lines_insert).
    destruct (IH inverse_read_default In b1 (tick w))
      as (b' & t & Hrun & Hl & Hlt & Hat & Hfr).
    { unfold b1. by rewrite length_insert. }
    rewrite (read_cons inv I In Index b w c Hc). fold b1. rewrite Hrun.
    rewrite later_tick.
    eexists _, _. split; [reflexivity|].
    split; [congruence|]. split; [simpl in *; lia|]. split.
    + intros [|j] id Hj; simpl in Hj.
      * inversion Hj; subst id. exists (in_ c). split; [|done].
        unfold lines. by rewrite list_lookup_fmap, Hc.
      * destruct (Hat j id Hj) as (p & Hp & Ht). exists p.
        rewrite <- Hl1. split; [done|]. simpl. rewrite Ht, call_tick.
        by destruct j.
    + intros p Hp. apply not_elem_of_cons in Hp as [Hne Hp].
      rewrite (Hfr p Hp). unfold b1. by apply list_lookup_insert_ne.
Qed.

(** After a run-time list read, a listed position holds the sample of its
    last appearance in the list. *)
Lemma read_ids_last_sample inv ids : ∀ j id b w c,
  Forall (λ i, i < length b) ids →
  ids !! j = Some id →
  id ∉ drop (S j) ids →
  b !! id = Some c →
  ∃ b' w' t,
    Bus.read_ids ids inv (b, w) = Done ((), (b', w'), t)
    ∧ b' !! id = Some (refreshed T (in_ c) inv w j).
Proof.
  induction ids as [|i0 ids IH]; intros j id b w c Hin Hj Hlast Hc;
    [by rewrite lookup_nil in Hj|].
  apply Forall_cons in Hin as [Hi0 Hin].
  destruct (lookup_lt_is_Some_2 b i0 Hi0) as [c0 Hc0].
  rewrite (read_ids_cons inv i0 ids b w c0 Hc0).
  set (b1 := <[i0 := refreshed T (in_ c0) inv w 0]> b).
  assert (Hin1 : Forall (λ i, i < length b1) ids)
    by (unfold b1; by rewrite length_insert).
  destruct j as [|j]; simpl in Hj, Hlast.
  - injection Hj as ->. rewrite Hc in Hc0. injection Hc0 as <-.
    rewrite drop_0 in Hlast.
    destruct (read_ids_run inv ids b1 (tick w) Hin1)
      as (b' & t & Hrun & _ & _ & _ & Hfr).
    rewrite Hrun. eexists _, _, _. split; [reflexivity|].
    rewrite (Hfr id Hlast). unfold b1.
    apply list_lookup_insert_eq. by eapply lookup_lt_Some.
  - assert (Hc1 : ∃ c1, b1 !! id = Some c1 ∧ in_ c1 = in_ c).
    { unfold b1. destruct (decide (i0 = id)) as [Heq|Hne].
      - subst i0. rewrite Hc in Hc0. injection Hc0 as <-.
        exists (refreshed T (in_ c) inv w 0). split; [|done].
        apply list_lookup_insert_eq. by eapply lookup_lt_Some.
      - exists c. by rewrite list_lookup_insert_ne. }
    destruct Hc1 as (c1 & Hc1 & Hpin).
    destruct (IH j id b1 (tick w) c1 Hin1 Hj Hlast Hc1)
      as (b' & w' & t & Hrun & Hval).
    rewrite Hrun. eexists _, _, _. split; [reflexivity|].
    by rewrite Hval, Hpin, refreshed_tick.
Qed.

(** C7: on a list of positions inside the bus, [read(ids, inverse_read)]
    completes and makes one hardware call per entry of the list, the
    [j]-th call on the line of the [j]-th listed position with the given
    flag.  Each sample is stored: a listed position ends with the sample of
    the call made at its last appearance in the list, and a position that
    is not listed keeps what it had. *)
Theorem C7_read_ids_samples_in_list_order inv ids b w
    (Hin : Forall (λ id, id < length b) ids) :
  ∃ b' w' t,
    Bus.read_ids ids inv (b, w) = Done ((), (b', w'), t)
    ∧ length t = length ids
    ∧ (∀ j id, ids !! j = Some id →
         ∃ c, b !! id = Some c
              ∧ t !! j = Some (call T (in_ c) inv w j)
              ∧ (id ∉ drop (S j) ids →
                 b' !! id = Some (refreshed T (in_ c) inv w j)))
    ∧ (∀ p, p ∉ ids → b' !! p = b !! p).
Proof.
  destruct (read_ids_run inv ids b w Hin)
    as (b' & t & Hrun & _ & Hlt & Hat & Hfr).
  exists b', (later (length ids) w), t.
  split; [done|]. split; [done|]. split; [|done].
  intros j id Hj. destruct (Hat j id Hj) as (p & Hp & Ht).
  unfold lines in Hp. rewrite list_lookup_fmap in Hp.
  destruct (b !! id) as [c|] eqn:Hc; [|done]. exists c.
  injection Hp as <-. split; [done|]. split; [done|].
  intros Hlast.
  destruct (read_ids_last_sample inv ids j id b w c Hin Hj Hlast Hc)
    as (b2 & w2 & t2 & Hrun2 & Hval).
  rewrite Hrun in Hrun2. by injection Hrun2 as <- _ _.
Qed.

End Homogeneous.

(** C7 on [read({2, 0, 2}, false)] over a three-wide bus: position 2 is
    read twice and keeps its second sample, position 1 is left alone. *)
Lemma C7_witness :
  ∃ b' w' t,
    Bus.read_ids [2; 0; 2] false (dbus3, all_high) = Done ((), (b', w'), t)
    ∧ length t = 3
    ∧ (∀ j id, [2; 0; 2] !! j = Some id →
         ∃ c, dbus3 !! id = Some c
              ∧ t !! j = Some (call Digital (in_ c) false all_high j)
              ∧ (id ∉ drop (S j) [2; 0; 2] →
                 b' !! id
                 = Some (refreshed Digital (in_ c) false all_high j)))
    ∧ (∀ p, p ∉ [2; 0; 2] → b' !! p = dbus3 !! p).
Proof.
  apply (C7_read_ids_samples_in_list_order false [2; 0; 2] dbus3 all_high).
  repeat constructor.
Defined.

(** ** The heterogeneous bus *)

Section Heterogeneous.

Context `{Conversions}.

(** A read of position [I], for [I] among the declared kinds. *)
Lemma VBus_read_run {T} (b : VBus T) : ∀ I inv w,
  I < length T →
  ∃ k c b',
    tget I b = Some (existT k c)
    ∧ VBus.read I inv (b, w)
      = Done (as_value (data (refreshed k (in_ c) inv w 0)),
              (b', tick w), [call k (in_ c) inv w 0])
    ∧ tget I b' = Some (existT k (refreshed k (in_ c) inv w 0))
    ∧ ∀ p, p ≠ I → tget p b' = tget p b.
Proof.
  induction b as [|k ks x xs IH]; intros I inv w HI; simpl in HI; [lia|].
  destruct I as [|I].
  - exists k, x, (tcons (refreshed k (in_ x) inv w 0) xs).
    split; [done|]. split.
    + unfold VBus.read. simpl. unfold bind. by rewrite virtual_read_eq.
    + split; [done|]. by intros [|p] Hp.
  - destruct (IH I inv w) as (k' & c & xs' & Hget & Hrun & Hnew & Hfr);
      [lia|].
    exists k', c, (tcons x xs'). split; [done|]. split.
    + unfold VBus.read in *. simpl. by rewrite Hrun.
    + split; [done|]. intros [|p] Hp; [done|]. simpl. apply Hfr. lia.
Qed.

Lemma VBus_read_ill {T} (b : VBus T) : ∀ I inv w,
  length T ≤ I →
  VBus.read I inv (b, w) = Abort (IllFormed "tuple index out of bounds").
Proof.
  induction b as [|k ks x xs IH]; intros I inv w HI; [done|].
  simpl in HI. destruct I as [|I]; [lia|].
  unfold VBus.read in *. simpl. rewrite IH; [done|lia].
Qed.

Lemma assign_Some {ks} (data : data_bus ks) : ∀ J val,
  J < length ks → is_Some (assign J val data).
Proof.
  induction data as [|k ks x xs IH]; intros J val HJ; simpl in HJ; [lia|].
  destruct J as [|J]; simpl; [done|].
  destruct (IH J val) as [d Hd]; [lia|]. by rewrite Hd.
Qed.

Lemma assign_field_run {St ks} (data : data_bus ks) J val (st : St) :
  J < length ks →
  ∃ data', assign_field J val data st = Done (data', st, []).
Proof.
  intros HJ. destruct (assign_Some data J val HJ) as [d Hd].
  exists d. unfold assign_field. by rewrite Hd.
Qed.

Lemma bound_kinds_Some T Ids :
  Forall (λ i, i < length T) Ids →
  ∃ ks, bound_kinds T Ids = Some ks ∧ length ks = length Ids.
Proof.
  induction 1 as [|I Ids HI _ (ks & Hks & Hlen)]; [by exists []|].
  destruct (lookup_lt_is_Some_2 T I HI) as [k Hk].
  exists (k :: ks). simpl. rewrite Hk, Hks. simpl. by rewrite Hlen.
Qed.

(** [read_iter] on positions among the declared kinds completes, with one
    hardware read per position, and touches no other position. *)
Lemma read_iter_run {T ks} (b : VBus T) inv Index :
  ∀ I (d0 : data_bus ks) (b : VBus T) w,
    Forall (λ i, i < length T) (I :: Index) →
    length Index < length ks →
    ∃ data' b' t,
      VBus.read_iter I Index d0 inv (b, w)
      = Done (data', (b', later (S (length Index)) w), t)
      ∧ length t = S (length Index)
      ∧ ∀ p, p ∉ I :: Index → tget p b' = tget p b.
Proof.
  clear b.
  induction Index as [|In Index IH]; intros I d0 b w Hin Hlen;
    apply Forall_cons in Hin as [HI Hin];
    destruct (VBus_read_run b I inv w HI)
      as (k & c & b1 & _ & Hrun & _ & Hfr1).
  - destruct (assign_field_run (St := VBus T * World) d0 0
                (as_value (data (refreshed k (in_ c) inv w 0)))
                (b1, tick w)) as [d Hd]; [simpl in Hlen; lia|].
    simpl. unfold bind. rewrite Hrun, Hd. simpl.
    exists d, b1, [call k (in_ c) inv w 0].
    split; [by rewrite <- later_tick, later_0|]. split; [done|].
    intros p Hp. apply not_elem_of_cons in Hp as [Hne _]. by apply Hfr1.
  - simpl in Hlen.
    destruct (assign_field_run (St := VBus T * World) d0
                (length Index + 1)
                (as_value (data (refreshed k (in_ c) inv w 0)))
                (b1, tick w)) as [d Hd]; [lia|].
    destruct (IH In d b1 (tick w) Hin) as (d' & b' & t & Hrec & Hlt & Hfr);
      [lia|].
    simpl. unfold bind at 1. rewrite Hrun. unfold bind at 1. rewrite Hd.
    rewrite Hrec. rewrite later_tick. simpl.
    eexists _, _, _. split; [reflexivity|]. split; [simpl; lia|].
    intros p Hp. apply not_elem_of_cons in Hp as [Hne Hp].
    rewrite (Hfr p Hp). by apply Hfr1.
Qed.

Lemma VBus_read_keeps_lines {T} (b : VBus T) I inv w v b' w' t :
  VBus.read I inv (b, w) = Done (v, (b', w'), t) →
  ∀ p, line_of b' p = line_of b p.
Proof.
  intros Hrun p. destruct (decide (I < length T)) as [HI|HI].
  - destruct (VBus_read_run b I inv w HI)
      as (k & c & b1 & Hget & Hrun1 & Hnew & Hfr).
    rewrite Hrun1 in Hrun. injection Hrun as _ <- _ _.
    unfold line_of. destruct (decide (p = I)) as [->|Hne].
    + by rewrite Hnew, Hget.
    + by rewrite (Hfr p Hne).
  - rewrite VBus_read_ill in Hrun; [done|lia].
Qed.

Lemma assign_get {ks} (d : data_bus ks) : ∀ J val d',
  assign J val d = Some d' →
  (∃ k', ks !! J = Some k'
         ∧ tget J d' = Some (stored (projT1 val) k' (projT2 val)))
  ∧ ∀ J', J' ≠ J → tget J' d' = tget J' d.
Proof.
  induction d as [|k ks x xs IH]; intros J val d' Hd; simpl in Hd; [done|].
  destruct J as [|J].
  - injection Hd as <-. split; [by exists k|]. by intros [|J'] HJ.
  - destruct (assign J val xs) as [xs'|] eqn:Hxs; [|done].
    injection Hd as <-. destruct (IH J val xs' Hxs) as [(k' & Hk & Hg) Hne].
    split; [by exists k'|]. intros [|J'] HJ; [done|]. simpl. apply Hne. lia.
Qed.

(** What [read_iter] does in full: the [j]-th hardware read is on the
    [j]-th listed position, and its sample lands in field
    [sizeof...(Index) - j] of the record, counting [Index] as in the first
    call: the fields are filled from the last one down. *)
Lemma read_iter_fields {T ks} inv Index :
  ∀ I (d0 : data_bus ks) (b : VBus T) w,
    Forall (λ i, i < length T) (I :: Index) →
    length Index < length ks →
    ∃ d' b' t,
      VBus.read_iter I Index d0 inv (b, w)
      = Done (d', (b', later (S (length Index)) w), t)
      ∧ (∀ J, length Index < J → tget J d' = tget J d0)
      ∧ ∀ j id, (I :: Index) !! j = Some id →
          ∃ k p k',
            line_of b id = Some (k, p)
            ∧ t !! j = Some (call k p inv w j)
            ∧ ks !! (length Index - j) = Some k'
            ∧ tget (length Index - j) d'
              = Some (stored k k'
                        (polarity k inv (signal w k p (clock w + j)))).
Proof.
  induction Index as [|In Index IH]; intros I d0 b w Hin Hlen;
    apply Forall_cons in Hin as [HI Hin];
    destruct (VBus_read_run b I inv w HI)
      as (k & c & b1 & Hget & Hrun & _ & _);
    pose proof (VBus_read_keeps_lines _ _ _ _ _ _ _ _ Hrun) as Hlines.
  - destruct (assign_field_run (St := VBus T * World) d0 0
                (as_value (data (refreshed k (in_ c) inv w 0)))
                (b1, tick w)) as [d Hd]; [simpl in Hlen; lia|].
    simpl. unfold bind. rewrite Hrun, Hd. simpl.
    unfold assign_field in Hd.
    destruct (assign 0 _ d0) as [d1|] eqn:Ha; [|done].
    injection Hd as ->.
    destruct (assign_get d0 _ _ _ Ha) as [(k' & Hk & Hg) Hne].
    eexists _, _, _. split; [by rewrite <- later_tick, later_0|].
    split; [intros J HJ; apply Hne; lia|].
    intros [|j] id Hj; simpl in Hj; [|by rewrite lookup_nil in Hj].
    injection Hj as <-. exists k, (in_ c), k'.
    unfold line_of. rewrite Hget. by repeat split.
  - simpl in Hlen.
    destruct (assign_field_run (St := VBus T * World) d0
                (length Index + 1)
                (as_value (data (refreshed k (in_ c) inv w 0)))
                (b1, tick w)) as [d Hd]; [lia|].
    destruct (IH In d b1 (tick w) Hin) as (d' & b' & t & Hrec & Hhi & Hat);
      [lia|].
    simpl. unfold bind at 1. rewrite Hrun. unfold bind at 1. rewrite Hd.
    rewrite Hrec. rewrite later_tick. simpl.
    unfold assign_field in Hd.
    destruct (assign (length Index + 1) _ d0) as [d1|] eqn:Ha; [|done].
    injection Hd as ->.
    destruct (assign_get d0 _ _ _ Ha) as [(k' & Hk & Hg) Hne].
    eexists _, _, _. split; [reflexivity|].
    split.
    { intros J HJ. rewrite Hhi by lia. apply Hne. lia. }
    intros [|j] id Hj; simpl in Hj.
    + injection Hj as <-. exists k, (in_ c), k'.
      unfold line_of. rewrite Hget.
      replace (S (length Index) - 0) with (length Index + 1) by lia.
      split; [done|]. split; [done|]. split; [done|].
      rewrite Hhi by lia. exact Hg.
    + destruct (Hat j id Hj) as (kj & pj & kj' & Hl & Ht & Hkj & Hgj).
      exists kj, pj, kj'. rewrite <- Hlines.
      split; [done|]. split; [by simpl; rewrite Ht, call_tick|].
      replace (S (length Index) - S j) with (length Index - j) by lia.
      split; [done|]. rewrite Hgj. unfold stored, tick. simpl.
      by replace (S (clock w + j)) with (clock w + S j) by lia.
Qed.

(** [read_all_iter<I>] for [I >= 1] reads positions [I], ..., 2 and then 0:
    [I] hardware reads, none of them on position 1. *)
Lemma read_all_iter_run {T ks} inv : ∀ I (d0 : data_bus ks) (b : VBus T) w,
  1 ≤ I → I < length T → I < length ks →
  ∃ d' b' t,
    VBus.read_all_iter I d0 inv (b, w) = Done (d', (b', later I w), t)
    ∧ length t = I
    ∧ tget 1 b' = tget 1 b.
Proof.
  induction I as [|I IH]; intros d0 b w H1 HT Hks; [lia|].
  destruct I as [|I].
  - destruct (VBus_read_run b 0 inv w) as (k & c & b1 & _ & Hrun & _ & Hfr);
      [lia|].
    destruct (assign_field_run (St := VBus T * World) d0 0
                (as_value (data (refreshed k (in_ c) inv w 0)))
                (b1, tick w)) as [d Hd]; [lia|].
    simpl. unfold bind. rewrite Hrun, Hd. simpl.
    eexists _, _, _. split; [by rewrite <- later_tick, later_0|].
    split; [done|]. by apply Hfr.
  - destruct (VBus_read_run b (S (S I)) inv w)
      as (k & c & b1 & _ & Hrun & _ & Hfr); [lia|].
    destruct (assign_field_run (St := VBus T * World) d0 (S (S I))
                (as_value (data (refreshed k (in_ c) inv w 0)))
                (b1, tick w)) as [d Hd]; [lia|].
    destruct (IH d b1 (tick w)) as (d' & b' & t & Hrec & Hlt & Hfr');
      [lia..|].
    change (VBus.read_all_iter (S (S I)) d0 inv)
      with (let* read_val := VBus.read (T := T) (S (S I)) inv in
            let* data' := assign_field (S (S I)) read_val d0 in
            VBus.read_all_iter (S I) data' inv).
    unfold bind at 1. rewrite Hrun. unfold bind at 1. rewrite Hd.
    rewrite Hrec. rewrite later_tick. simpl.
    eexists _, _, _. split; [reflexivity|]. split; [simpl; lia|].
    rewrite Hfr'. by apply Hfr.
Qed.

(** On every bus of two kinds or more, [read_all] completes with one
    hardware read fewer than there are positions and leaves position 1
    untouched. *)
Lemma read_all_leaves_position_1 {T} inv (b : VBus T) w :
  2 ≤ length T →
  ∃ r b' t,
    VBus.read_all inv (b, w) = Done (r, (b', later (length T - 1) w), t)
    ∧ length t = length T - 1
    ∧ tget 1 b' = tget 1 b.
Proof.
  intros HT. unfold VBus.read_all.
  destruct (length T) as [|last] eqn:HK; [lia|].
  replace (S last - 1) with last by lia.
  apply read_all_iter_run; lia.
Qed.

End Heterogeneous.

(** ** Selective reads leave the other positions alone *)

(** C8: each selective read, on positions of the bus, completes and leaves
    every position that is not listed exactly as it was: the compile-time
    list read and the run-time list read of the homogeneous bus, the single
    read and the compile-time list read of the heterogeneous bus. *)
Theorem C8_unlisted_positions_unchanged :
  (∀ T I Index inv (b : Bus T) w p,
     Forall (λ i, i < length b) (I :: Index) → p ∉ I :: Index →
     ∃ b' w' t,
       Bus.read I Index inv (b, w) = Done ((), (b', w'), t)
       ∧ b' !! p = b !! p)
  ∧ (∀ T ids inv (b : Bus T) w p,
       Forall (λ i, i < length b) ids → p ∉ ids →
       ∃ b' w' t,
         Bus.read_ids ids inv (b, w) = Done ((), (b', w'), t)
         ∧ b' !! p = b !! p)
  ∧ (∀ T I inv (b : VBus T) w p,
       I < length T → p ≠ I →
       ∃ v b' w' t,
         VBus.read I inv (b, w) = Done (v, (b', w'), t)
         ∧ tget p b' = tget p b)
  ∧ (∀ (C : Conversions) T I In Index inv (b : VBus T) w p,
       Forall (λ i, i < length T) (I :: In :: Index) →
       p ∉ I :: In :: Index →
       ∃ r b' w' t,
         VBus.read_list I In Index inv (b, w) = Done (r, (b', w'), t)
         ∧ tget p b' = tget p b).
Proof.
  repeat split.
  - intros T I Index inv b w p Hin Hp.
    destruct (read_run Index inv I b w Hin)
      as (b' & t & Hrun & _ & _ & _ & Hfr).
    eexists _, _, _. split; [exact Hrun | by apply Hfr].
  - intros T ids inv b w p Hin Hp.
    destruct (read_ids_run inv ids b w Hin)
      as (b' & t & Hrun & _ & _ & _ & Hfr).
    eexists _, _, _. split; [exact Hrun | by apply Hfr].
  - intros T I inv b w p HI Hp.
    destruct (VBus_read_run b I inv w HI) as (k & c & b' & _ & Hrun & _ & Hfr).
    eexists _, _, _, _. split; [exact Hrun | by apply Hfr].
  - intros C T I In Index inv b w p Hin Hp.
    destruct (bound_kinds_Some T _ Hin) as (ks & Hks & Hlen).
    destruct (read_iter_run b inv (In :: Index) I (tuple_init ks) b w Hin)
      as (d & b' & t & Hrun & _ & Hfr); [simpl in *; lia|].
    unfold VBus.read_list. rewrite Hks. unfold bind. rewrite Hrun.
    eexists _, _, _, _. split; [reflexivity | by apply Hfr].
Qed.

(** C8 on the three-wide binary bus, for [read<2, 0>(true)] and
    [read({2, 0}, true)], and on the bus of kinds (binary, analog, binary),
    for [read<2>(false)] and [read<2, 0>(false)]: position 1 is left
    alone. *)
Lemma C8_witness :
  (∃ b' w' t,
     Bus.read 2 [0] true (dbus3, all_high) = Done ((), (b', w'), t)
     ∧ b' !! 1 = dbus3 !! 1)
  ∧ (∃ b' w' t,
       Bus.read_ids [2; 0] true (dbus3, all_high) = Done ((), (b', w'), t)
       ∧ b' !! 1 = dbus3 !! 1)
  ∧ (∃ v b' w' t,
       VBus.read 2 false (vbus3, world3) = Done (v, (b', w'), t)
       ∧ tget 1 b' = tget 1 vbus3)
  ∧ (∃ r b' w' t,
       VBus.read_list (H := plain_conversions) 2 0 [] false (vbus3, world3)
       = Done (r, (b', w'), t)
       ∧ tget 1 b' = tget 1 vbus3).
Proof.
  assert (Hout : 1 ∉ [2; 0]).
  { intros Hel. repeat (apply elem_of_cons in Hel as [Hel|Hel]; [done|]).
    by apply elem_of_nil in Hel. }
  destruct C8_unlisted_positions_unchanged as (Hct & Hrt & Hone & Hlist).
  split; [|split; [|split]].
  - apply Hct; [repeat constructor | exact Hout].
  - apply Hrt; [repeat constructor | exact Hout].
  - apply Hone; [simpl; lia | lia].
  - apply Hlist; [repeat constructor | exact Hout].
Defined.

(** ** Where the header departs from its contract *)

(** C1 fails on the code.  On the bus of kinds (binary, analog, binary)
    whose lines give (1, 0.42, 0), [read_all()] makes two hardware calls,
    on position 2 and then on position 0.  Position 1 is never sampled: its
    cache keeps the old 7.0 and field 1 of the record keeps the 0.0 of its
    value-initialisation instead of 0.42. *)
Theorem C1_read_all_misses_position_1 (C : Conversions) :
  VBus.read_all false (vbus3, world3)
  = Done (record3 1 (S754_zero false) 0,
          (tcons (Build_InputRead Digital 20 1%Z)
             (tcons (Build_InputRead Analog 21 f7)
                (tcons (Build_InputRead Digital 22 0%Z) tnil)),
           later 2 world3),
          [call Digital 22 false world3 0; call Digital 20 false world3 1]).
Proof. reflexivity. Qed.

(** C2 fails on the code.  On a bus of two binary kinds whose lines give
    (1, 0), [read<0, 1>()] samples position 0 and then position 1, and
    returns the record (0, 1): field 0 holds the sample of position 1 and
    field 1 the sample of position 0. *)
Theorem C2_read_list_fills_fields_backwards (C : Conversions) :
  VBus.read_list 0 1 [] false (vbus2, world3)
  = Done (existT [Digital; Digital] (record2 0 1),
          (tcons (Build_InputRead Digital 20 1%Z)
             (tcons (Build_InputRead Digital 22 0%Z) tnil),
           later 2 world3),
          [call Digital 20 false world3 0; call Digital 22 false world3 1]).
Proof. reflexivity. Qed.

(** C3 fails on the code.  On a two-wide binary bus whose lines both give 1,
    [read<0, 1>(true)] reads position 0 inverted and position 1 not
    inverted: the caches end as (0, 1). *)
Theorem C3_read_list_drops_the_flag :
  Bus.read 0 [1] true (dbus2, all_high)
  = Done ((),
          ([Build_InputRead Digital 10 0%Z; Build_InputRead Digital 11 1%Z],
           later 2 all_high),
          [call Digital 10 true all_high 0; call Digital 11 false all_high 1]).
Proof. reflexivity. Qed.

(** C4 fails on the code.  For every index at or past the width of the
    bus, [operator[]] and the run-time list read go on to the array access;
    no error is raised. *)
Theorem C4_out_of_range_is_not_reported {T} (b : Bus T) (w : World)
    (n : nat) (ids : list nat) (inv : bool) :
  Bus.operator_index (length b + n) (b, w)
  = Abort (StrayAccess (length b + n))
  ∧ Bus.read_ids (length b + n :: ids) inv (b, w)
    = Abort (StrayAccess (length b + n)).
Proof.
  split.
  - unfold Bus.operator_index. unfold bind at 1. unfold Bus.N at 1.
    unfold bind at 1.
    replace ((if length b <=? length b + n then ret () else ret ()) (b, w))
      with (Done ((), (b, w), @nil Event)) by (by destruct (_ <=? _)).
    rewrite at_index_stray; [done|lia].
  - apply read_ids_stray. lia.
Qed.

(** * Further properties of the header *)

(** ** Cached access on the homogeneous bus *)

Section HomogeneousAccess.

Context {T : Kind}.
Implicit Types (b : Bus T) (w : World) (inv : bool).

Lemma at_index_read_cached b w i c :
  b !! i = Some c →
  at_index i InputRead.read_cached (b, w) = Done (data c, (b, w), []).
Proof.
  intros H. unfold at_index. rewrite H. simpl.
  by rewrite (list_insert_id b i c H).
Qed.

(** X1: for a position inside the bus, [get<I>()] and [operator[](I)]
    return the same thing, the value cached at that position, and both
    leave the bus and the hardware untouched. *)
Theorem X1_get_and_index_return_the_cache b w I c (Hc : b !! I = Some c) :
  Bus.get I (b, w) = Done (data c, (b, w), [])
  ∧ Bus.operator_index I (b, w) = Done (data c, (b, w), []).
Proof.
  pose proof (lookup_lt_Some _ _ _ Hc) as Hlt.
  split.
  - unfold Bus.get. unfold bind at 1. unfold Bus.N at 1.
    apply Nat.ltb_lt in Hlt. rewrite Hlt. unfold static_assert.
    by rewrite (at_index_read_cached b w I c Hc).
  - unfold Bus.operator_index. unfold bind at 1. unfold Bus.N at 1.
    unfold bind at 1.
    replace ((if length b <=? I then ret () else ret ()) (b, w))
      with (Done ((), (b, w), @nil Event)) by (by destruct (_ <=? _)).
    by rewrite (at_index_read_cached b w I c Hc).
Qed.

Lemma read_rejected Index : ∀ inv I b w,
  Exists (λ i, length b ≤ i) (I :: Index) →
  Bus.read I Index inv (b, w) = Abort (IllFormed OUT_OF_BOUNDS_ERROR).
Proof.
  induction Index as [|In Index IH]; intros inv I b w Hex.
  - apply Exists_cons in Hex as [HI|Hex]; [|by apply Exists_nil in Hex].
    simpl. unfold bind at 1. unfold Bus.N at 1.
    apply Nat.ltb_ge in HI. by rewrite HI.
  - destruct (decide (I < length b)) as [Hlt|Hge].
    + apply Exists_cons in Hex as [HI|Hex]; [lia|].
      destruct (lookup_lt_is_Some_2 b I Hlt) as [c Hc].
      rewrite (read_cons inv I In Index b w c Hc).
      rewrite IH; [done|]. by rewrite length_insert.
    + simpl. unfold bind at 1. unfold Bus.N at 1.
      assert (HI : (I <? length b) = false) by (apply Nat.ltb_ge; lia).
      by rewrite HI.
Qed.

(** X2: the accessors with compile-time positions never reach the array
    with a bad index.  [get<I>] with [I >= N], and [read<I, In, ...>] with
    any listed position [>= N], do not build, with the message
    [OUT_OF_BOUNDS_ERROR]. *)
Theorem X2_compile_time_positions_are_checked b w :
  (∀ I, length b ≤ I →
     Bus.get I (b, w) = Abort (IllFormed OUT_OF_BOUNDS_ERROR))
  ∧ (∀ I Index inv,
       Exists (λ i, length b ≤ i) (I :: Index) →
       Bus.read I Index inv (b, w) = Abort (IllFormed OUT_OF_BOUNDS_ERROR)).
Proof.
  split.
  - intros I HI. unfold Bus.get. unfold bind at 1. unfold Bus.N at 1.
    apply Nat.ltb_ge in HI. by rewrite HI.
  - intros I Index inv. apply read_rejected.
Qed.

(** X4: after [read(ids, inverse_read)] on positions of the bus, every
    listed position caches the sample taken at its last appearance in the
    list; earlier samples of a position that is listed again are
    overwritten. *)
Theorem X4_read_ids_keeps_last_sample inv ids : ∀ j id b w c,
  Forall (λ i, i < length b) ids →
  ids !! j = Some id →
  id ∉ drop (S j) ids →
  b !! id = Some c →
  ∃ b' w' t,
    Bus.read_ids ids inv (b, w) = Done ((), (b', w'), t)
    ∧ b' !! id = Some (refreshed T (in_ c) inv w j).
Proof.
  induction ids as [|i0 ids IH]; intros j id b w c Hin Hj Hlast Hc;
    [by rewrite lookup_nil in Hj|].
  apply Forall_cons in Hin as [Hi0 Hin].
  destruct (lookup_lt_is_Some_2 b i0 Hi0) as [c0 Hc0].
  rewrite (read_ids_cons inv i0 ids b w c0 Hc0).
  set (b1 := <[i0 := refreshed T (in_ c0) inv w 0]> b).
  assert (Hin1 : Forall (λ i, i < length b1) ids)
    by (unfold b1; by rewrite length_insert).
  destruct j as [|j]; simpl in Hj, Hlast.
  - injection Hj as ->. rewrite Hc in Hc0. injection Hc0 as <-.
    rewrite drop_0 in Hlast.
    destruct (read_ids_run inv ids b1 (tick w) Hin1)
      as (b' & t & Hrun & _ & _ & _ & Hfr).
    rewrite Hrun. eexists _, _, _. split; [reflexivity|].
    rewrite (Hfr id Hlast). unfold b1.
    apply list_lookup_insert_eq. by eapply lookup_lt_Some.
  - assert (Hc1 : ∃ c1, b1 !! id = Some c1 ∧ in_ c1 = in_ c).
    { unfold b1. destruct (decide (i0 = id)) as [Heq|Hne].
      - subst i0. rewrite Hc in Hc0. injection Hc0 as <-.
        exists (refreshed T (in_ c) inv w 0). split; [|done].
        apply list_lookup_insert_eq. by eapply lookup_lt_Some.
      - exists c. by rewrite list_lookup_insert_ne. }
    destruct Hc1 as (c1 & Hc1 & Hpin).
    destruct (IH j id b1 (tick w) c1 Hin1 Hj Hlast Hc1)
      as (b' & w' & t & Hrun & Hval).
    rewrite Hrun. eexists _, _, _. split; [reflexivity|].
    by rewrite Hval, Hpin, refreshed_tick.
Qed.

(** X5: after [read<I, In, ...>(inverse_read)] on positions of the bus,
    every listed position caches the sample taken at its last appearance in
    the list, read with the given flag if that is the head of the list and
    with the default flag anywhere else. *)
Theorem X5_read_keeps_last_sample Index : ∀ inv I j id b w c,
  Forall (λ i, i < length b) (I :: Index) →
  (I :: Index) !! j = Some id →
  id ∉ drop (S j) (I :: Index) →
  b !! id = Some c →
  ∃ b' w' t,
    Bus.read I Index inv (b, w) = Done ((), (b', w'), t)
    ∧ b' !! id = Some (refreshed T (in_ c) (flag_at inv j) w j).
Proof.
  induction Index as [|In Index IH]; intros inv I j id b w c Hin Hj Hlast Hc;
    apply Forall_cons in Hin as [HI Hin];
    destruct (lookup_lt_is_Some_2 b I HI) as [c0 Hc0].
  - destruct j as [|j]; simpl in Hj; [|by rewrite lookup_nil in Hj].
    injection Hj as ->. rewrite Hc in Hc0. injection Hc0 as <-.
    rewrite (read_one inv id b w c Hc). eexists _, _, _.
    split; [reflexivity|]. by apply list_lookup_insert_eq.
  - rewrite (read_cons inv I In Index b w c0 Hc0).
    set (b1 := <[I := refreshed T (in_ c0) inv w 0]> b).
    assert (Hin1 : Forall (λ i, i < length b1) (In :: Index))
      by (unfold b1; by rewrite length_insert).
    destruct j as [|j]; simpl in Hj, Hlast.
    + injection Hj as ->. rewrite Hc in Hc0. injection Hc0 as <-.
      destruct (read_run Index inverse_read_default In b1 (tick w) Hin1)
        as (b' & t & Hrun & _ & _ & _ & Hfr).
      rewrite Hrun. eexists _, _, _. split; [reflexivity|].
      rewrite (Hfr id Hlast). unfold b1.
      by apply list_lookup_insert_eq.
    + assert (Hc1 : ∃ c1, b1 !! id = Some c1 ∧ in_ c1 = in_ c).
      { unfold b1. destruct (decide (I = id)) as [Heq|Hne].
        - subst I. rewrite Hc in Hc0. injection Hc0 as <-.
          exists (refreshed T (in_ c) inv w 0). split; [|done].
          by apply list_lookup_insert_eq.
        - exists c. by rewrite list_lookup_insert_ne. }
      destruct Hc1 as (c1 & Hc1 & Hpin).
      destruct (IH inverse_read_default In j id b1 (tick w) c1 Hin1 Hj
                  Hlast Hc1) as (b' & w' & t & Hrun & Hval).
      rewrite Hrun. eexists _, _, _. split; [reflexivity|].
      rewrite Hval, Hpin, refreshed_tick. by destruct j.
Qed.

End HomogeneousAccess.

(** ** What every operation keeps to *)

Section Confined.

Context `{Conversions}.

Lemma confined_ret {St A} (L : St → list Pin) (a : A) : confined L (ret a).
Proof. intros s w a' s' w' t Hrun. unfold ret in Hrun. by simplify_eq. Qed.

Lemma confined_ill_formed {St A} (L : St → list Pin) what :
  confined (A := A) L (ill_formed what).
Proof. by intros s w a' s' w' t Hrun. Qed.

Lemma confined_static_assert {St A} (L : St → list Pin) cond what
    (m : Exec (St * World) A) :
  confined L m → confined L (static_assert cond what m).
Proof. intros Hm. destruct cond; [exact Hm|]. by intros s w a s' w' t Hrun. Qed.

Lemma confined_bind {St A B} (L : St → list Pin) (m : Exec (St * World) A)
    (k : A → Exec (St * World) B) :
  confined L m → (∀ a, confined L (k a)) → confined L (bind m k).
Proof.
  intros Hm Hk s w c s' w' t Hrun. unfold bind in Hrun.
  destruct (m (s, w)) as [[[a [s1 w1]] t1]|] eqn:E1; [|done].
  destruct (k a (s1, w1)) as [[[c2 [s2 w2]] t2]|] eqn:E2; [|done].
  simplify_eq.
  destruct (Hm _ _ _ _ _ _ E1) as [HL1 Ht1].
  destruct (Hk _ _ _ _ _ _ _ E2) as [HL2 Ht2].
  split; [congruence|]. apply Forall_app. split; [done|].
  by rewrite <- HL1.
Qed.

Lemma confined_virtual_read k inv :
  confined (λ c : InputRead k, [in_ c]) (virtual_read k inv).
Proof.
  intros s w a s' w' t Hrun. rewrite virtual_read_eq in Hrun.
  injection Hrun as <- <- <- <-. split; [done|].
  repeat constructor.
Qed.

Lemma confined_read_cached k :
  confined (λ c : InputRead k, [in_ c]) InputRead.read_cached.
Proof.
  intros s w a s' w' t Hrun. unfold InputRead.read_cached in Hrun.
  by simplify_eq.
Qed.

Lemma confined_at_index {T A} i (m : Exec (InputRead T * World) A) :
  confined (λ c : InputRead T, [in_ c]) m →
  confined lines (at_index i m).
Proof.
  intros Hm b w a b' w' t Hrun. unfold at_index in Hrun.
  destruct (b !! i) as [e|] eqn:He; [|done].
  destruct (m (e, w)) as [[[a1 [e1 w1]] t1]|] eqn:E1; [|done].
  simplify_eq. destruct (Hm _ _ _ _ _ _ E1) as [Hpin Ht].
  injection Hpin as Hpin.
  assert (Hi : lines b !! i = Some (in_ e))
    by (unfold lines; by rewrite list_lookup_fmap, He).
  split.
  - unfold lines in *. rewrite list_fmap_insert, Hpin.
    by apply list_insert_id.
  - eapply Forall_impl; [exact Ht|]. intros ev Hev.
    apply list_elem_of_singleton in Hev. rewrite Hev.
    by eapply list_elem_of_lookup_2.
Qed.

Lemma for_each_confined {T} (body : Exec (InputRead T * World) unit) :
  confined (λ c : InputRead T, [in_ c]) body →
  ∀ b w b' w' t,
    for_each body b w = Done (b', w', t) →
    lines b' = lines b ∧ Forall (λ e, line e ∈ lines b) t.
Proof.
  intros Hb b. induction b as [|e b IH]; intros w b' w' t Hrun;
    simpl in Hrun.
  - by simplify_eq.
  - destruct (body (e, w)) as [[[[] [e1 w1]] t1]|] eqn:E1; [|done].
    destruct (for_each body b w1) as [[[b2 w2] t2]|] eqn:E2; [|done].
    simplify_eq. destruct (Hb _ _ _ _ _ _ E1) as [Hpin Ht1].
    injection Hpin as Hpin.
    destruct (IH _ _ _ _ E2) as [Hl Ht2].
    change (lines (e1 :: b2)) with (in_ e1 :: lines b2).
    change (lines (e :: b)) with (in_ e :: lines b).
    split; [by rewrite Hpin, Hl|].
    apply Forall_app. split.
    + eapply Forall_impl; [exact Ht1|]. intros ev Hev.
      apply list_elem_of_singleton in Hev. rewrite Hev. by left.
    + eapply Forall_impl; [exact Ht2|]. intros ev Hev. by right.
Qed.

Lemma at_get_confined {A} (m : ∀ k, Exec (InputRead k * World) A) :
  (∀ k, confined (λ c : InputRead k, [in_ c]) (m k)) →
  ∀ T (b : VBus T) I w a b' w' t,
    at_get I m b w = Done (a, (b', w'), t) →
    tlines b' = tlines b ∧ Forall (λ e, line e ∈ tlines b) t.
Proof.
  intros Hm T b. induction b as [|k ks x xs IH];
    intros I w a b' w' t Hrun; simpl in Hrun; [done|].
  destruct I as [|I].
  - destruct (m k (x, w)) as [[[a1 [x1 w1]] t1]|] eqn:E1; [|done].
    simplify_eq. destruct (Hm _ _ _ _ _ _ _ E1) as [Hpin Ht].
    injection Hpin as Hpin. simpl. split; [by rewrite Hpin|].
    eapply Forall_impl; [exact Ht|]. intros ev Hev.
    apply list_elem_of_singleton in Hev. rewrite Hev. by left.
  - destruct (at_get I m xs w) as [[[a1 [xs1 w1]] t1]|] eqn:E1; [|done].
    simplify_eq. destruct (IH _ _ _ _ _ _ E1) as [Hl Ht].
    simpl. split; [by rewrite Hl|].
    eapply Forall_impl; [exact Ht|]. intros ev Hev. by right.
Qed.

Lemma confined_at_get {A T} I (m : ∀ k, Exec (InputRead k * World) A) :
  (∀ k, confined (λ c : InputRead k, [in_ c]) (m k)) →
  confined tlines (λ '(self, w), at_get (T := T) I m self w).
Proof.
  intros Hm s w a s' w' t Hrun.
  exact (at_get_confined m Hm T s I _ _ _ _ _ Hrun).
Qed.

Lemma confined_N T : confined lines (@Bus.N T).
Proof.
  intros s w a s' w' t Hrun. unfold Bus.N in Hrun. by simplify_eq.
Qed.

Lemma confined_guard {St} (L : St → list Pin) (c : bool) :
  confined L (if c then ret () else ret ()).
Proof. destruct c; apply confined_ret. Qed.

Lemma confined_assign_field {St ks} (L : St → list Pin) J val
    (d : data_bus ks) :
  confined L (assign_field J val d).
Proof.
  unfold assign_field. destruct (assign J val d);
    [apply confined_ret | apply confined_ill_formed].
Qed.

Create HintDb confined.

Hint Resolve confined_ret confined_ill_formed confined_virtual_read
  confined_read_cached confined_N confined_guard confined_assign_field
  : confined.

Ltac confine :=
  repeat first
    [ apply confined_bind; [|intros ?]
    | apply confined_static_assert
    | apply confined_at_index
    | apply confined_at_get; intros ?
    | solve [eauto with confined] ].

Lemma confined_Bus_read_all T inv : confined lines (@Bus.read_all T inv).
Proof.
  intros b w a b' w' t Hrun. unfold Bus.read_all in Hrun.
  destruct (for_each _ b w) as [[[b1 w1] t1]|] eqn:E1; [|done].
  simplify_eq. eapply for_each_confined; [|exact E1]. confine.
Qed.

Lemma confined_Bus_read T Index :
  ∀ I inv, confined lines (@Bus.read T I Index inv).
Proof. induction Index as [|In Index IH]; intros I inv; simpl; confine. Qed.

Lemma confined_Bus_read_ids T ids inv :
  confined lines (@Bus.read_ids T ids inv).
Proof. induction ids as [|id ids IH]; simpl; confine. Qed.

Lemma confined_Bus_call T op : confined lines (@Bus_call T op).
Proof.
  destruct op; simpl; confine;
    [ unfold Bus.operator_index | unfold Bus.get | ..]; confine;
    eauto using confined_Bus_read_all, confined_Bus_read,
      confined_Bus_read_ids.
Qed.

Lemma confined_VBus_get T I : confined tlines (@VBus.get T I).
Proof. unfold VBus.get. confine. Qed.

Lemma confined_VBus_read T I inv : confined tlines (@VBus.read T I inv).
Proof. unfold VBus.read. confine. Qed.

Hint Resolve confined_VBus_read : confined.

Lemma confined_read_iter T ks Index :
  ∀ I (d : data_bus ks) inv,
    confined tlines (VBus.read_iter (T := T) I Index d inv).
Proof.
  induction Index as [|In Index IH]; intros I d inv; simpl; confine.
Qed.

Lemma confined_read_list T I In Index inv :
  confined tlines (VBus.read_list (T := T) I In Index inv).
Proof.
  unfold VBus.read_list. destruct (bound_kinds _ _); confine.
  all: apply confined_read_iter.
Qed.

Lemma confined_read_all_iter T ks I :
  ∀ (d : data_bus ks) inv,
    confined tlines (VBus.read_all_iter (T := T) I d inv).
Proof.
  induction I as [|I IH]; intros d inv; [simpl; confine|].
  destruct I as [|I]; [simpl; confine|].
  change (confined tlines
            (let* read_val := VBus.read (S (S I)) inv in
             let* data' := assign_field (S (S I)) read_val d in
             VBus.read_all_iter (T := T) (S I) data' inv)).
  confine.
Qed.

Lemma confined_read_all T inv : confined tlines (VBus.read_all (T := T) inv).
Proof.
  unfold VBus.read_all. destruct (length T); confine.
  all: apply confined_read_all_iter.
Qed.

Lemma confined_VBus_call T op : confined tlines (@VBus_call _ T op).
Proof.
  destruct op; simpl; confine;
    eauto using confined_VBus_get, confined_read_all, confined_read_list.
Qed.

Lemma confined_run {St Op} (L : St → list Pin)
    (call : Op → Exec (St * World) Returned) ops :
  (∀ op, confined L (call op)) → confined L (run call ops).
Proof. intros Hcall. induction ops as [|op ops IH]; simpl; confine. Qed.

End Confined.

(** X7: whatever sequence of operations a program runs on a heterogeneous
    bus, a completed run leaves the line behind each position as it was,
    and every hardware call it made was on one of the lines of the bus. *)
Theorem X7_vbus_keeps_to_its_lines (C : Conversions) {T} ops (b : VBus T)
    w rs b' w' t
    (Hrun : run VBus_call ops (b, w) = Done (rs, (b', w'), t)) :
  tlines b' = tlines b
  ∧ Forall (λ e, line e ∈ tlines b) t.
Proof.
  exact (confined_run tlines (@VBus_call C T) ops (confined_VBus_call T)
           _ _ _ _ _ _ Hrun).
Qed.

(** ** Access and reads on the heterogeneous bus *)

Section HeterogeneousAccess.

Context `{Conversions}.

Lemma tget_kind {F T} (b : tuple F T) : ∀ I k c,
  tget I b = Some (existT k c) → T !! I = Some k.
Proof.
  induction b as [|k0 ks x xs IH]; intros I k c Hget; simpl in Hget;
    [done|].
  destruct I as [|I]; [|by eapply IH].
  by simplify_eq.
Qed.

Lemma tget_is_Some {F T} (b : tuple F T) : ∀ I,
  I < length T → ∃ k c, tget I b = Some (existT k c).
Proof.
  induction b as [|k0 ks x xs IH]; intros I HI; simpl in HI; [lia|].
  destruct I as [|I]; [by exists k0, x|]. apply IH. lia.
Qed.

Lemma tget_tuple_init ks : ∀ i k,
  ks !! i = Some k →
  tget i (tuple_init ks) = Some (as_value (value_init k)).
Proof.
  induction ks as [|k0 ks IH]; intros i k Hk; [done|].
  destruct i as [|i]; simpl in *; [by simplify_eq|]. by apply IH.
Qed.

Lemma stored_same k (v : assoc_data_type k) : stored k k v = as_value v.
Proof. unfold stored. by destruct k. Qed.

Lemma VBus_get_run {T} (b : VBus T) : ∀ I k c w,
  tget I b = Some (existT k c) →
  VBus.get I (b, w) = Done (as_value (data c), (b, w), []).
Proof.
  induction b as [|k0 ks x xs IH]; intros I k c w Hget; simpl in Hget;
    [done|].
  destruct I as [|I].
  - injection Hget as -> Hc.
    apply (inj_pair2_eq_dec Kind Kind_eq_dec) in Hc. by subst.
  - unfold VBus.get in *. simpl. by rewrite (IH I k c w Hget).
Qed.

Lemma VBus_get_ill {T} (b : VBus T) : ∀ I w,
  length T ≤ I →
  VBus.get I (b, w) = Abort (IllFormed "tuple index out of bounds").
Proof.
  induction b as [|k ks x xs IH]; intros I w HI; [done|].
  simpl in HI. destruct I as [|I]; [lia|].
  unfold VBus.get in *. simpl. rewrite IH; [done|lia].
Qed.

(** X9: [get<I>()] on a position of a heterogeneous bus returns the value
    cached there, of the value type of the kind declared for that position,
    and leaves the bus and the hardware untouched. *)
Theorem X9_vbus_get_is_typed_and_pure {T} (b : VBus T) w I
    (HI : I < length T) :
  ∃ k c,
    T !! I = Some k
    ∧ tget I b = Some (existT k c)
    ∧ VBus.get I (b, w) = Done (existT k (data c), (b, w), []).
Proof.
  destruct (tget_is_Some b I HI) as (k & c & Hget).
  exists k, c. split; [by eapply tget_kind|]. split; [done|].
  by apply VBus_get_run.
Qed.

(** X10: [read<I>(inverse_read)] on a position of a heterogeneous bus makes
    exactly one hardware call, on the line of that position, and returns
    the sample of that call, with its polarity applied and with the type of
    the position's kind; a [get<I>()] that follows returns that same
    value. *)
Theorem X10_vbus_read_then_get {T} (b : VBus T) w I inv
    (HI : I < length T) :
  ∃ k p b',
    T !! I = Some k
    ∧ line_of b I = Some (k, p)
    ∧ VBus.read I inv (b, w)
      = Done (existT k (polarity k inv (signal w k p (clock w))),
              (b', tick w), [call k p inv w 0])
    ∧ ∀ w'',
        VBus.get I (b', w'')
        = Done (existT k (polarity k inv (signal w k p (clock w))),
                (b', w''), []).
Proof.
  destruct (VBus_read_run b I inv w HI)
    as (k & c & b' & Hget & Hrun & Hnew & _).
  exists k, (in_ c), b'.
  split; [by eapply tget_kind|].
  split; [unfold line_of; by rewrite Hget|].
  assert (Hv : data (refreshed k (in_ c) inv w 0)
               = polarity k inv (signal w k (in_ c) (clock w)))
    by (unfold refreshed; simpl; by rewrite Nat.add_0_r).
  split.
  - rewrite Hrun. unfold as_value. by rewrite Hv.
  - intros w''. rewrite (VBus_get_run b' I k _ w'' Hnew).
    unfold as_value. by rewrite Hv.
Qed.

Lemma bound_kinds_lookup T Ids : ∀ ks j id,
  bound_kinds T Ids = Some ks → Ids !! j = Some id → ks !! j = T !! id.
Proof.
  induction Ids as [|i0 Ids IH]; intros ks j id Hks Hj;
    [by rewrite lookup_nil in Hj|].
  simpl in Hks. destruct (T !! i0) as [k0|] eqn:Hk0; [|done].
  destruct (bound_kinds T Ids) as [ks0|] eqn:Hks0; [|done].
  simpl in Hks. injection Hks as <-.
  destruct j as [|j]; simpl in *; [by simplify_eq|]. by eapply IH.
Qed.

Lemma bound_kinds_None T Ids :
  Exists (λ i, length T ≤ i) Ids → bound_kinds T Ids = None.
Proof.
  induction 1 as [i Ids Hi|i Ids _ IH]; simpl.
  - by rewrite (lookup_ge_None_2 T i Hi).
  - rewrite IH. by destruct (T !! i).
Qed.

(** X11: [read<I, In, ...>(inverse_read)] on positions of a heterogeneous
    bus makes one hardware call per listed position, the [j]-th call on
    the [j]-th listed position, every one with the flag that was given;
    the record it returns has one field per listed position, field [j] of
    the value type of the [j]-th listed position. *)
Theorem X11_vbus_read_list_order_and_types {T} (b : VBus T) w I In Index inv
    (Hin : Forall (λ i, i < length T) (I :: In :: Index)) :
  ∃ ks d' b' w' t,
    VBus.read_list I In Index inv (b, w) = Done (existT ks d', (b', w'), t)
    ∧ length t = length (I :: In :: Index)
    ∧ length ks = length (I :: In :: Index)
    ∧ ∀ j id, (I :: In :: Index) !! j = Some id →
        ∃ k p,
          line_of b id = Some (k, p)
          ∧ t !! j = Some (call k p inv w j)
          ∧ ks !! j = Some k.
Proof.
  destruct (bound_kinds_Some T _ Hin) as (ks & Hks & Hlen).
  destruct (read_iter_run b inv (In :: Index) I (tuple_init ks) b w Hin)
    as (d1 & b1 & t1 & Hrun1 & Hlt & _); [simpl in *; lia|].
  destruct (read_iter_fields inv (In :: Index) I (tuple_init ks) b w Hin)
    as (d & b' & t & Hrun & _ & Hat); [simpl in *; lia|].
  rewrite Hrun in Hrun1. injection Hrun1 as <- <- <-.
  unfold VBus.read_list. rewrite Hks. unfold bind. rewrite Hrun.
  eexists _, _, _, _, _. split; [reflexivity|].
  split; [by rewrite app_nil_r|]. split; [done|].
  intros j id Hj. destruct (Hat j id Hj) as (k & p & k' & Hl & Ht & _ & _).
  exists k, p. split; [done|]. split; [by rewrite app_nil_r|].
  rewrite (bound_kinds_lookup T _ ks j id Hks Hj).
  unfold line_of in Hl.
  destruct (tget id b) as [[k0 c0]|] eqn:Hget; [|done].
  injection Hl as -> _. by eapply tget_kind.
Qed.

(** X12: on a heterogeneous bus a position that is not among the declared
    kinds is caught when the program is built: [get<I>], [read<I>] and
    [read<I, In, ...>] naming such a position do not build. *)
Theorem X12_vbus_positions_are_checked {T} (b : VBus T) w :
  (∀ I, length T ≤ I →
     VBus.get I (b, w) = Abort (IllFormed "tuple index out of bounds"))
  ∧ (∀ I inv, length T ≤ I →
       VBus.read I inv (b, w)
       = Abort (IllFormed "tuple index out of bounds"))
  ∧ (∀ I In Index inv,
       Exists (λ i, length T ≤ i) (I :: In :: Index) →
       VBus.read_list I In Index inv (b, w)
       = Abort (IllFormed "tuple index out of bounds")).
Proof.
  split; [intros I; apply VBus_get_ill|].
  split; [intros I inv; apply VBus_read_ill|].
  intros I In Index inv Hex. unfold VBus.read_list.
  by rewrite (bound_kinds_None T _ Hex).
Qed.

(** What [read_all_iter<I>], for [I >= 1], leaves behind when the record
    has the kinds of the bus: positions [I], ..., 2 and then 0 are read in
    that order, each into its cache and into its own field; position 1 and
    the positions above [I] are not touched. *)
Lemma read_all_iter_fields {T} inv :
  ∀ I (d0 : data_bus T) (b : VBus T) w,
    1 ≤ I → I < length T →
    ∃ d' b' t,
      VBus.read_all_iter I d0 inv (b, w) = Done (d', (b', later I w), t)
      ∧ length t = I
      ∧ (∀ i, i = 0 ∨ (2 ≤ i ∧ i ≤ I) →
           ∃ k c,
             tget i b = Some (existT k c)
             ∧ t !! (if i is 0 then I - 1 else I - i)
               = Some (call k (in_ c) inv w (if i is 0 then I - 1 else I - i))
             ∧ tget i b'
               = Some (existT k (refreshed k (in_ c) inv w
                                   (if i is 0 then I - 1 else I - i)))
             ∧ tget i d'
               = Some (as_value
                         (data (refreshed k (in_ c) inv w
                                  (if i is 0 then I - 1 else I - i)))))
      ∧ (∀ i, i = 1 ∨ I < i →
           tget i b' = tget i b ∧ tget i d' = tget i d0).
Proof.
  induction I as [|I IH]; intros d0 b w H1 HT; [lia|].
  destruct I as [|I].
  - destruct (VBus_read_run b 0 inv w)
      as (k & c & b1 & Hget & Hrun & Hnew & Hfr); [lia|].
    destruct (assign_Some d0 0
                (as_value (data (refreshed k (in_ c) inv w 0))))
      as [d Hd]; [lia|].
    destruct (assign_get d0 _ _ _ Hd) as [(k' & Hk & Hg) Hne].
    rewrite (tget_kind b 0 k c Hget) in Hk. injection Hk as <-.
    simpl in Hg. rewrite stored_same in Hg.
    simpl. unfold bind. rewrite Hrun. unfold assign_field. rewrite Hd.
    simpl. eexists _, _, _.
    split; [by rewrite <- later_tick, later_0|]. split; [done|]. split.
    + intros i [->|[? ?]]; [|lia]. by exists k, c.
    + intros i Hi. split; [apply Hfr | apply Hne]; lia.
  - destruct (VBus_read_run b (S (S I)) inv w)
      as (k & c & b1 & Hget & Hrun & Hnew & Hfr); [lia|].
    destruct (assign_Some d0 (S (S I))
                (as_value (data (refreshed k (in_ c) inv w 0))))
      as [d Hd]; [lia|].
    destruct (assign_get d0 _ _ _ Hd) as [(k' & Hk & Hg) Hne].
    rewrite (tget_kind b _ k c Hget) in Hk. injection Hk as <-.
    simpl in Hg. rewrite stored_same in Hg.
    destruct (IH d b1 (tick w)) as (d' & b' & t & Hrec & Hlt & Hdone & Hrest);
      [lia..|].
    change (VBus.read_all_iter (S (S I)) d0 inv)
      with (let* read_val := VBus.read (T := T) (S (S I)) inv in
            let* data' := assign_field (S (S I)) read_val d0 in
            VBus.read_all_iter (S I) data' inv).
    unfold bind at 1. rewrite Hrun. unfold bind at 1.
    unfold assign_field. rewrite Hd. unfold ret at 1.
    rewrite Hrec. rewrite later_tick. simpl app.
    eexists _, _, _. split; [reflexivity|]. split; [simpl; lia|]. split.
    + intros i Hi. destruct (decide (i = S (S I))) as [->|Hne'].
      * exists k, c. split; [done|].
        replace (S (S I) - S (S I)) with 0 by lia. split; [done|].
        destruct (Hrest (S (S I))) as [Hb Hd']; [lia|].
        by rewrite Hb, Hd', Hnew, Hg.
      * destruct (Hdone i) as (k1 & c1 & Hget1 & Ht1 & Hb1 & Hd1); [lia|].
        rewrite (Hfr i Hne') in Hget1. exists k1, c1. split; [done|].
        assert (Hn : (if i is 0 then S (S I) - 1 else S (S I) - i)
                     = S (if i is 0 then S I - 1 else S I - i))
          by (destruct i; lia).
        rewrite Hn. rewrite <- call_tick, <- refreshed_tick.
        by repeat split.
    + intros i Hi. destruct (Hrest i) as [Hb Hd']; [lia|].
      rewrite Hb, Hd'. split; [apply Hfr | apply Hne]; lia.
Qed.

(** X13: what [read_all] really does on a bus of two kinds or more.  It
    reads the positions from the highest down to 2 and then position 0,
    one hardware call each; each of them ends with its fresh sample both in
    its cache and in its own field of the record.  Position 1 is passed
    over: its cache is as before and its field is the value-initialised
    default. *)
Theorem X13_vbus_read_all_in_full {T} inv (b : VBus T) w
    (HT : 2 ≤ length T) :
  ∃ r b' w' t,
    VBus.read_all inv (b, w) = Done (r, (b', w'), t)
    ∧ length t = length T - 1
    ∧ (∀ i, i < length T → i ≠ 1 →
         ∃ k c,
           tget i b = Some (existT k c)
           ∧ t !! (if i is 0 then length T - 2 else length T - 1 - i)
             = Some (call k (in_ c) inv w
                       (if i is 0 then length T - 2 else length T - 1 - i))
           ∧ tget i b'
             = Some (existT k (refreshed k (in_ c) inv w
                       (if i is 0 then length T - 2 else length T - 1 - i)))
           ∧ tget i r
             = Some (as_value
                       (data (refreshed k (in_ c) inv w
                          (if i is 0 then length T - 2
                           else length T - 1 - i)))))
    ∧ tget 1 b' = tget 1 b
    ∧ ∃ k1, T !! 1 = Some k1 ∧ tget 1 r = Some (as_value (value_init k1)).
Proof.
  unfold VBus.read_all. destruct (length T) as [|last] eqn:HK; [lia|].
  destruct (read_all_iter_fields inv last (tuple_init T) b w)
    as (d' & b' & t & Hrun & Hlt & Hdone & Hrest); [lia..|].
  rewrite Hrun. eexists _, _, _, _. split; [reflexivity|].
  split; [lia|]. split.
  - intros i Hi Hne. destruct (Hdone i) as (k & c & Hget & Ht & Hb & Hd);
      [lia|].
    exists k, c. split; [done|].
    replace (S last - 2) with (last - 1) by lia.
    replace (S last - 1 - i) with (last - i) by lia.
    by repeat split.
  - destruct (Hrest 1) as [Hb Hd]; [by left|]. split; [done|].
    destruct (lookup_lt_is_Some_2 T 1) as [k1 Hk1]; [lia|].
    exists k1. split; [done|]. rewrite Hd. by apply tget_tuple_init.
Qed.

End HeterogeneousAccess.

(** ** From construction to the first cached values *)

(** X14: a [Bus<T, N>] builds from exactly [N] lines and from no other
    number.  Once built, whatever the storage of the caches held, one
    [read_all(inverse_read)] makes its [i]-th hardware call on the [i]-th
    line given to the constructor, and [operator[](i)] then returns that
    sample, with its polarity applied, for every [i < N]. *)
Theorem X14_construct_read_all_index T N args inv w :
  (length args ≠ N →
     Bus.ctor T N args = Abort (IllFormed "initializer count"))
  ∧ (length args = N →
       ∃ b b' w' t,
         Bus.ctor T N args = Done b
         ∧ length b = N
         ∧ lines b = args.*1
         ∧ Bus.read_all inv (b, w) = Done ((), (b', w'), t)
         ∧ ∀ i p s, args !! i = Some (p, s) →
             t !! i = Some (call T p inv w i)
             ∧ Bus.operator_index i (b', w')
               = Done (polarity T inv (signal w T p (clock w + i)),
                       (b', w'), [])).
Proof.
  unfold Bus.ctor. split; intros Hlen.
  - apply Nat.eqb_neq in Hlen. by rewrite Hlen.
  - set (b := map (λ a, InputRead.ctor T a.1 a.2) args).
    destruct (for_each_read (T := T) inv b w)
      as (b' & t & Hrun & Hlb & Hlt & Hat).
    exists b, b', (later (length b) w), t.
    apply Nat.eqb_eq in Hlen as Hlen'. rewrite Hlen'.
    split; [done|]. split; [by unfold b; rewrite length_map|].
    split.
    { unfold lines, b. rewrite <- list_fmap_compose.
      by apply list_fmap_ext. }
    split; [unfold Bus.read_all; by rewrite Hrun|].
    intros i p s Hi.
    assert (Hb : b !! i = Some (InputRead.ctor T p s)).
    { unfold b. change (map ?f args) with (f <$> args).
      by rewrite list_lookup_fmap, Hi. }
    destruct (Hat i _ Hb) as [Ht Hb']. split; [exact Ht|].
    unfold Bus.operator_index. unfold bind at 1. unfold Bus.N at 1.
    unfold bind at 1.
    replace ((if length b' <=? i then ret () else ret ())
               (b', later (length b) w))
      with (Done ((), (b', later (length b) w), @nil Event))
      by (by destruct (_ <=? _)).
    by rewrite (at_index_read_cached b' _ i _ Hb').
Qed.

(** ** The overload with output slots *)

Section OutputSlots.

Context `{Conversions}.

Lemma tuple_inv {F T} (t : tuple F T) :
  match T return tuple F T → Prop with
  | [] => λ t, t = tnil
  | k :: ks => λ t, ∃ x xs, t = tcons x xs
  end t.
Proof. destruct t; [done|]. by eexists _, _. Qed.

Lemma tie_assign_same {T} (r dargs : data_bus T) : tie_assign r dargs = r.
Proof.
  induction dargs as [|k ks x xs IH].
  - by rewrite (tuple_inv r).
  - destruct (tuple_inv r) as (v & vs & ->). simpl.
    rewrite IH. by destruct k.
Qed.

(** X15: [read_all<InverseRead>(out...)] builds only with exactly as many
    output slots as the bus has positions.  With one slot per position, of
    the position's value type, it does what [read_all(InverseRead)] does,
    and the slots end up holding the record [read_all] returns, whatever
    they held before. *)
Theorem X15_read_all_into_slots {T} inv (b : VBus T) w :
  (∀ ks (dargs : data_bus ks), length ks ≠ length T →
     VBus_read_all_tie inv dargs (b, w) = Abort (IllFormed "tuple size"))
  ∧ (∀ dargs : data_bus T,
       VBus_read_all_tie inv dargs (b, w) = VBus.read_all inv (b, w)).
Proof.
  split.
  - intros ks dargs Hlen. unfold VBus_read_all_tie.
    apply Nat.eqb_neq in Hlen. by rewrite Hlen.
  - intros dargs. unfold VBus_read_all_tie. rewrite Nat.eqb_refl.
    unfold bind.
    destruct (VBus.read_all inv (b, w)) as [[[r st] t]|f]; [|done].
    unfold ret. by rewrite tie_assign_same, app_nil_r.
Qed.

End OutputSlots.

(** ** The further properties on the sample buses *)

(** X1 on position 1 of the three-wide binary bus. *)
Lemma X1_witness :
  Bus.get 1 (dbus3, all_high) = Done (6%Z, (dbus3, all_high), [])
  ∧ Bus.operator_index 1 (dbus3, all_high)
    = Done (6%Z, (dbus3, all_high), []).
Proof.
  apply (X1_get_and_index_return_the_cache dbus3 all_high 1
           (Build_InputRead Digital 11 6%Z)).
  reflexivity.
Defined.

(** X2 on the three-wide binary bus: [get<3>] and [read<0, 5>(true)]. *)
Lemma X2_witness :
  Bus.get 3 (dbus3, all_high) = Abort (IllFormed OUT_OF_BOUNDS_ERROR)
  ∧ Bus.read 0 [5] true (dbus3, all_high)
    = Abort (IllFormed OUT_OF_BOUNDS_ERROR).
Proof.
  destruct (X2_compile_time_positions_are_checked dbus3 all_high)
    as [Hget Hread].
  split.
  - apply Hget. simpl. lia.
  - apply Hread. apply Exists_cons. right. apply Exists_cons. left.
    simpl. lia.
Defined.

(** X4 on the three-wide binary bus: [read({2, 0, 2}, true)] leaves in
    position 2 the sample of the third hardware call. *)
Lemma X4_witness :
  ∃ b' w' t,
    Bus.read_ids [2; 0; 2] true (dbus3, all_high) = Done ((), (b', w'), t)
    ∧ b' !! 2 = Some (refreshed Digital 12 true all_high 2).
Proof.
  apply (X4_read_ids_keeps_last_sample true [2; 0; 2] 2 2 dbus3 all_high
           (Build_InputRead Digital 12 7%Z)).
  - repeat constructor.
  - reflexivity.
  - simpl. apply not_elem_of_nil.
  - reflexivity.
Defined.

(** X5 on the three-wide binary bus: [read<1, 1>(true)] leaves in position
    1 the sample of the second hardware call, read with the default flag. *)
Lemma X5_witness :
  ∃ b' w' t,
    Bus.read 1 [1] true (dbus3, all_high) = Done ((), (b', w'), t)
    ∧ b' !! 1 = Some (refreshed Digital 11 false all_high 1).
Proof.
  apply (X5_read_keeps_last_sample [1] true 1 1 1 dbus3 all_high
           (Build_InputRead Digital 11 6%Z)).
  - repeat constructor.
  - reflexivity.
  - simpl. apply not_elem_of_nil.
  - reflexivity.
Defined.

(** X7 on the sample program over the bus of kinds (binary, analog,
    binary). *)
Lemma X7_witness :
  ∃ rs b' w' t,
    run (VBus_call (H := plain_conversions)) sample_vprogram (vbus3, world3)
    = Done (rs, (b', w'), t)
    ∧ tlines b' = tlines vbus3
    ∧ Forall (λ e, line e ∈ tlines vbus3) t.
Proof.
  do 4 eexists. split; [reflexivity|].
  eapply (X7_vbus_keeps_to_its_lines plain_conversions sample_vprogram
            vbus3 world3).
  reflexivity.
Defined.

(** X9 on position 1, the analog one, of the bus of three kinds. *)
Lemma X9_witness :
  ∃ k c,
    [Digital; Analog; Digital] !! 1 = Some k
    ∧ tget 1 vbus3 = Some (existT k c)
    ∧ VBus.get 1 (vbus3, world3)
      = Done (existT k (data c), (vbus3, world3), []).
Proof.
  apply (X9_vbus_get_is_typed_and_pure vbus3 world3 1). simpl. lia.
Defined.

(** X10 on position 1 of the bus of three kinds. *)
Lemma X10_witness :
  ∃ k p b',
    [Digital; Analog; Digital] !! 1 = Some k
    ∧ line_of vbus3 1 = Some (k, p)
    ∧ VBus.read 1 true (vbus3, world3)
      = Done (existT k (polarity k true (signal world3 k p (clock world3))),
              (b', tick world3), [call k p true world3 0])
    ∧ ∀ w'',
        VBus.get 1 (b', w'')
        = Done (existT k (polarity k true (signal world3 k p (clock world3))),
                (b', w''), []).
Proof.
  apply (X10_vbus_read_then_get vbus3 world3 1 true). simpl. lia.
Defined.

(** X11 on [read<2, 0, 1>(true)] over the bus of three kinds. *)
Lemma X11_witness :
  ∃ ks d' b' w' t,
    VBus.read_list (H := plain_conversions) 2 0 [1] true (vbus3, world3)
    = Done (existT ks d', (b', w'), t)
    ∧ length t = 3
    ∧ length ks = 3
    ∧ ∀ j id, [2; 0; 1] !! j = Some id →
        ∃ k p,
          line_of vbus3 id = Some (k, p)
          ∧ t !! j = Some (call k p true world3 j)
          ∧ ks !! j = Some k.
Proof.
  apply (X11_vbus_read_list_order_and_types (H := plain_conversions) vbus3
           world3 2 0 [1] true).
  repeat constructor.
Defined.

(** X12 on the bus of three kinds: [get<3>], [read<3>] and [read<0, 3>]. *)
Lemma X12_witness :
  VBus.get 3 (vbus3, world3) = Abort (IllFormed "tuple index out of bounds")
  ∧ VBus.read 3 false (vbus3, world3)
    = Abort (IllFormed "tuple index out of bounds")
  ∧ VBus.read_list (H := plain_conversions) 0 3 [] false (vbus3, world3)
    = Abort (IllFormed "tuple index out of bounds").
Proof.
  destruct (X12_vbus_positions_are_checked (H := plain_conversions) vbus3
              world3) as (Hget & Hread & Hlist).
  split; [|split].
  - apply Hget. simpl. lia.
  - apply Hread. simpl. lia.
  - apply Hlist. apply Exists_cons. right. apply Exists_cons. left.
    simpl. lia.
Defined.

(** X13 on the bus of kinds (binary, analog, binary). *)
Lemma X13_witness :
  ∃ r b' w' t,
    VBus.read_all (H := plain_conversions) false (vbus3, world3)
    = Done (r, (b', w'), t)
    ∧ length t = 2
    ∧ (∀ i, i < 3 → i ≠ 1 →
         ∃ k c,
           tget i vbus3 = Some (existT k c)
           ∧ t !! (if i is 0 then 1 else 2 - i)
             = Some (call k (in_ c) false world3 (if i is 0 then 1 else 2 - i))
           ∧ tget i b'
             = Some (existT k (refreshed k (in_ c) false world3
                                 (if i is 0 then 1 else 2 - i)))
           ∧ tget i r
             = Some (as_value
                       (data (refreshed k (in_ c) false world3
                                (if i is 0 then 1 else 2 - i)))))
    ∧ tget 1 b' = tget 1 vbus3
    ∧ ∃ k1, [Digital; Analog; Digital] !! 1 = Some k1
            ∧ tget 1 r = Some (as_value (value_init k1)).
Proof.
  apply (X13_vbus_read_all_in_full (H := plain_conversions) false vbus3
           world3).
  simpl. lia.
Defined.

(** X14 on two lines: a two-wide bus builds from them, a three-wide one
    does not. *)
Lemma X14_witness :
  Bus.ctor Digital 3 [(10, 5%Z); (11, 6%Z)]
  = Abort (IllFormed "initializer count")
  ∧ ∃ b b' w' t,
      Bus.ctor Digital 2 [(10, 5%Z); (11, 6%Z)] = Done b
      ∧ length b = 2
      ∧ lines b = [(10, 5%Z); (11, 6%Z)].*1
      ∧ Bus.read_all true (b, all_high) = Done ((), (b', w'), t)
      ∧ ∀ i p s, [(10, 5%Z); (11, 6%Z)] !! i = Some (p, s) →
          t !! i = Some (call Digital p true all_high i)
          ∧ Bus.operator_index i (b', w')
            = Done (polarity Digital true
                      (signal all_high Digital p (clock all_high + i)),
                    (b', w'), []).
Proof.
  split.
  - apply (proj1 (X14_construct_read_all_index Digital 3
                    [(10, 5%Z); (11, 6%Z)] true all_high)).
    simpl. lia.
  - apply (proj2 (X14_construct_read_all_index Digital 2
                    [(10, 5%Z); (11, 6%Z)] true all_high)).
    reflexivity.
Defined.

(** X15 on the bus of three kinds, with a single output slot. *)
Lemma X15_witness :
  VBus_read_all_tie (H := plain_conversions) false
    (tcons (k := Digital) 9%Z tnil) (vbus3, world3)
  = Abort (IllFormed "tuple size").
Proof.
  apply (proj1 (X15_read_all_into_slots (H := plain_conversions) false
                  vbus3 world3)).
  simpl. lia.
Defined.

(** ** The list reads in full *)

(** X16: what [read<I, In, ...>(inverse_read)] of a heterogeneous bus
    returns, on [n] listed positions of the bus: the sample of the [j]-th
    listed position is in field [n - 1 - j] of the record, converted to
    the type of that field.  The record is filled from its last field
    down. *)
Theorem X16_vbus_read_list_record (C : Conversions) {T} (b : VBus T) w
    I In Index inv
    (Hin : Forall (λ i, i < length T) (I :: In :: Index)) :
  ∃ ks d' b' w' t,
    VBus.read_list I In Index inv (b, w) = Done (existT ks d', (b', w'), t)
    ∧ ∀ j id, (I :: In :: Index) !! j = Some id →
        ∃ k p k',
          line_of b id = Some (k, p)
          ∧ ks !! (S (length Index) - j) = Some k'
          ∧ tget (S (length Index) - j) d'
            = Some (stored k k'
                      (polarity k inv (signal w k p (clock w + j)))).
Proof.
  destruct (bound_kinds_Some T _ Hin) as (ks & Hks & Hlen).
  destruct (read_iter_fields inv (In :: Index) I (tuple_init ks) b w Hin)
    as (d & b' & t & Hrun & _ & Hat); [simpl in *; lia|].
  unfold VBus.read_list. rewrite Hks. unfold bind. rewrite Hrun.
  eexists _, _, _, _, _. split; [reflexivity|].
  intros j id Hj. destruct (Hat j id Hj) as (k & p & k' & Hl & _ & Hk & Hg).
  by exists k, p, k'.
Qed.

(** X16 on [read<0, 1>(false)] over the bus of kinds (binary, analog,
    binary). *)
Lemma X16_witness :
  ∃ ks d' b' w' t,
    VBus.read_list (H := plain_conversions) 0 1 [] false (vbus3, world3)
    = Done (existT ks d', (b', w'), t)
    ∧ ∀ j id, [0; 1] !! j = Some id →
        ∃ k p k',
          line_of vbus3 id = Some (k, p)
          ∧ ks !! (1 - j) = Some k'
          ∧ tget (1 - j) d'
            = Some (stored (H := plain_conversions) k k'
                      (polarity k false
                         (signal world3 k p (clock world3 + j)))).
Proof.
  apply (X16_vbus_read_list_record plain_conversions vbus3 world3 0 1 []
           false).
  repeat constructor.
Defined.

(** X17: [read<I, In, ...>(inverse_read)] of a homogeneous bus, on
    positions of the bus, makes one hardware call per listed position, the
    [j]-th call on the [j]-th listed position; the first call carries the
    flag that was given and every later call the default flag. *)
Theorem X17_bus_read_calls {T} (b : Bus T) w I Index inv
    (Hin : Forall (λ i, i < length b) (I :: Index)) :
  ∃ b' w' t,
    Bus.read I Index inv (b, w) = Done ((), (b', w'), t)
    ∧ length t = length (I :: Index)
    ∧ ∀ j id, (I :: Index) !! j = Some id →
        ∃ c, b !! id = Some c
             ∧ t !! j = Some (call T (in_ c) (flag_at inv j) w j).
Proof.
  destruct (read_run Index inv I b w Hin)
    as (b' & t & Hrun & _ & Hlt & Hat & _).
  eexists _, _, _. split; [exact Hrun|]. split; [done|].
  intros j id Hj. destruct (Hat j id Hj) as (p & Hp & Ht).
  unfold lines in Hp. rewrite list_lookup_fmap in Hp.
  destruct (b !! id) as [c|]; [|done]. exists c.
  by inversion Hp; subst.
Qed.

(** X17 on [read<2, 0, 1>(true)] over the three-wide binary bus. *)
Lemma X17_witness :
  ∃ b' w' t,
    Bus.read 2 [0; 1] true (dbus3, all_high) = Done ((), (b', w'), t)
    ∧ length t = 3
    ∧ ∀ j id, [2; 0; 1] !! j = Some id →
        ∃ c, dbus3 !! id = Some c
             ∧ t !! j
               = Some (call Digital (in_ c) (flag_at true j) all_high j).
Proof.
  apply (X17_bus_read_calls dbus3 all_high 2 [0; 1] true).
  repeat constructor.
Defined.

(** ** Programs inside the bus complete *)

Section Completion.

Context `{Conversions}.

Lemma bind_ret_done {St A B} (m : Exec St A) (f : A → B) st a st' t :
  m st = Done (a, st', t) →
  bind m (λ x, ret (f x)) st = Done (f a, st', t).
Proof. intros Hm. unfold bind, ret. by rewrite Hm, app_nil_r. Qed.

Lemma lines_length {T} (b b' : Bus T) :
  lines b' = lines b → length b' = length b.
Proof.
  unfold lines. intros Hl.
  by rewrite <- (length_fmap in_ b'), Hl, length_fmap.
Qed.

Lemma Bus_index_cached {T} (b : Bus T) w i c :
  b !! i = Some c →
  Bus.operator_index i (b, w) = Done (data c, (b, w), []).
Proof.
  intros Hc. unfold Bus.operator_index. unfold bind at 1.
  unfold Bus.N at 1. unfold bind at 1.
  replace ((if length b <=? i then ret () else ret ()) (b, w))
    with (Done ((), (b, w), @nil Event)) by (by destruct (_ <=? _)).
  by rewrite (at_index_read_cached b w i c Hc).
Qed.

Lemma Bus_get_cached {T} (b : Bus T) w i c :
  b !! i = Some c → Bus.get i (b, w) = Done (data c, (b, w), []).
Proof.
  intros Hc. pose proof (lookup_lt_Some _ _ _ Hc) as Hlt.
  unfold Bus.get. unfold bind at 1. unfold Bus.N at 1.
  apply Nat.ltb_lt in Hlt. rewrite Hlt. unfold static_assert.
  by rewrite (at_index_read_cached b w i c Hc).
Qed.

Lemma Bus_call_inside {T} op (b : Bus T) w :
  inside (length b) op →
  ∃ r b' w' t,
    Bus_call op (b, w) = Done (r, (b', w'), t) ∧ length b' = length b.
Proof.
  destruct op as [i|i|inv|i Index inv|ids inv]; simpl; intros Hin.
  - destruct (lookup_lt_is_Some_2 b i Hin) as [c Hc].
    eexists _, _, _, _. split; [|reflexivity].
    by rewrite (bind_ret_done _ _ _ _ _ _ (Bus_index_cached b w i c Hc)).
  - destruct (lookup_lt_is_Some_2 b i Hin) as [c Hc].
    eexists _, _, _, _. split; [|reflexivity].
    by rewrite (bind_ret_done _ _ _ _ _ _ (Bus_get_cached b w i c Hc)).
  - destruct (for_each_read (T := T) inv b w)
      as (b' & t & Hrun & Hlen & _ & _).
    assert (Hall : Bus.read_all inv (b, w)
                   = Done ((), (b', later (length b) w), t))
      by (unfold Bus.read_all; by rewrite Hrun).
    eexists _, _, _, _. split; [|exact Hlen].
    by rewrite (bind_ret_done _ (λ _, Void) _ _ _ _ Hall).
  - destruct (read_run Index inv i b w Hin)
      as (b' & t & Hrun & Hl & _ & _ & _).
    eexists _, _, _, _. split; [|by apply lines_length].
    by rewrite (bind_ret_done _ (λ _, Void) _ _ _ _ Hrun).
  - destruct (read_ids_run inv ids b w Hin)
      as (b' & t & Hrun & Hl & _ & _ & _).
    eexists _, _, _, _. split; [|by apply lines_length].
    by rewrite (bind_ret_done _ (λ _, Void) _ _ _ _ Hrun).
Qed.

Lemma run_Bus_inside {T} ops : ∀ (b : Bus T) w,
  Forall (inside (length b)) ops →
  ∃ rs b' w' t, run Bus_call ops (b, w) = Done (rs, (b', w'), t).
Proof.
  induction ops as [|op ops IH]; intros b w Hin.
  - by eexists _, _, _, _.
  - apply Forall_cons in Hin as [Hop Hin].
    destruct (Bus_call_inside op b w Hop) as (r & b1 & w1 & t1 & Hrun & Hlen).
    rewrite <- Hlen in Hin.
    destruct (IH b1 w1 Hin) as (rs & b' & w' & t & Hrest).
    simpl. unfold bind at 1. rewrite Hrun.
    rewrite (bind_ret_done _ (λ rs, r :: rs) _ _ _ _ Hrest).
    by eexists _, _, _, _.
Qed.

Lemma VBus_call_inside {T} op (b : VBus T) w :
  vinside (length T) op →
  ∃ r b' w' t, VBus_call op (b, w) = Done (r, (b', w'), t).
Proof.
  destruct op as [i|inv|i inv|i In Index inv]; simpl; intros Hin.
  - destruct (tget_is_Some b i Hin) as (k & c & Hget).
    eexists _, _, _, _.
    by rewrite (bind_ret_done _ _ _ _ _ _ (VBus_get_run b i k c w Hget)).
  - destruct (read_all_leaves_position_1 inv b w Hin)
      as (r & b' & t & Hrun & _ & _).
    eexists _, _, _, _.
    by rewrite (bind_ret_done _ (λ r, Fields (existT T r)) _ _ _ _ Hrun).
  - destruct (VBus_read_run b i inv w Hin)
      as (k & c & b' & _ & Hrun & _ & _).
    eexists _, _, _, _.
    by rewrite (bind_ret_done _ _ _ _ _ _ Hrun).
  - destruct (bound_kinds_Some T _ Hin) as (ks & Hks & Hlen).
    destruct (read_iter_run b inv (In :: Index) i (tuple_init ks) b w Hin)
      as (d & b' & t & Hrun & _ & _); [simpl in *; lia|].
    assert (Hlist : VBus.read_list i In Index inv (b, w)
                    = Done (existT ks d,
                            (b', later (S (length (In :: Index))) w), t)).
    { unfold VBus.read_list. rewrite Hks. unfold bind. rewrite Hrun.
      unfold ret. by rewrite app_nil_r. }
    eexists _, _, _, _.
    by rewrite (bind_ret_done _ _ _ _ _ _ Hlist).
Qed.

Lemma run_VBus_inside {T} ops : ∀ (b : VBus T) w,
  Forall (vinside (length T)) ops →
  ∃ rs b' w' t, run VBus_call ops (b, w) = Done (rs, (b', w'), t).
Proof.
  induction ops as [|op ops IH]; intros b w Hin.
  - by eexists _, _, _, _.
  - apply Forall_cons in Hin as [Hop Hin].
    destruct (VBus_call_inside op b w Hop) as (r & b1 & w1 & t1 & Hrun).
    destruct (IH b1 w1 Hin) as (rs & b' & w' & t & Hrest).
    simpl. unfold bind at 1. rewrite Hrun.
    rewrite (bind_ret_done _ (λ rs, r :: rs) _ _ _ _ Hrest).
    by eexists _, _, _, _.
Qed.

End Completion.

(** X6: a program on a homogeneous bus all of whose positions, the
    run-time ones too, are positions of the bus runs to its end, leaves the
    width of the bus and the line behind each position as they were, and
    makes every one of its hardware calls on a line of the bus. *)
Theorem X6_bus_keeps_to_its_lines {T} ops (b : Bus T) w
    (Hin : Forall (inside (length b)) ops) :
  ∃ rs b' w' t,
    run Bus_call ops (b, w) = Done (rs, (b', w'), t)
    ∧ length b' = length b
    ∧ lines b' = lines b
    ∧ Forall (λ e, line e ∈ lines b) t.
Proof.
  destruct (run_Bus_inside ops b w Hin) as (rs & b' & w' & t & Hrun).
  destruct (confined_run lines (@Bus_call T) ops (confined_Bus_call T)
              _ _ _ _ _ _ Hrun) as [Hl Ht].
  exists rs, b', w', t. split; [done|].
  split; [by apply lines_length|]. by split.
Qed.

(** X6 on the sample program over the three-wide binary bus. *)
Lemma X6_witness :
  ∃ rs b' w' t,
    run Bus_call sample_program (dbus3, all_high) = Done (rs, (b', w'), t)
    ∧ length b' = length dbus3
    ∧ lines b' = lines dbus3
    ∧ Forall (λ e, line e ∈ lines dbus3) t.
Proof.
  apply (X6_bus_keeps_to_its_lines sample_program dbus3 all_high).
  repeat constructor.
Defined.

(** ** Results depend on the hardware through the samples only *)

Section Settled.

Context `{Conversions}.

Lemma as_value_inj k (x y : assoc_data_type k) :
  as_value x = as_value y → x = y.
Proof.
  unfold as_value. intros Heq.
  apply (inj_pair2_eq_dec Kind Kind_eq_dec) in Heq. exact Heq.
Qed.

Lemma between_ret {St A} (R : St → St → Prop) (a : A) :
  settled_between R R (ret a).
Proof.
  intros s1 s2 w1 w2 a1 s1' w1' t1 a2 s2' w2' t2 u1 u2 HR H1 H2 Hr.
  unfold ret in *. by simplify_eq.
Qed.

Lemma between_ill_formed {St A} (R R' : St → St → Prop) what :
  settled_between (A := A) R R' (ill_formed what).
Proof. by intros s1 s2 w1 w2 a1 s1' w1' t1 a2 s2' w2' t2 u1 u2 HR H1. Qed.

Lemma between_bind {St A B} (R R' R'' : St → St → Prop)
    (m : Exec (St * World) A) (k : A → Exec (St * World) B) :
  settled_between R R' m → (∀ a, settled_between R' R'' (k a)) →
  settled_between R R'' (bind m k).
Proof.
  intros Hm Hk s1 s2 w1 w2 c1 s1' w1' t1 c2 s2' w2' t2 u1 u2 HR H1 H2 Hr.
  unfold bind in H1, H2.
  destruct (m (s1, w1)) as [[[a1 [sa1 wa1]] ta1]|] eqn:E1; [|done].
  destruct (k a1 (sa1, wa1)) as [[[d1 [sc1 wc1]] tc1]|] eqn:F1; [|done].
  destruct (m (s2, w2)) as [[[a2 [sa2 wa2]] ta2]|] eqn:E2; [|done].
  destruct (k a2 (sa2, wa2)) as [[[d2 [sc2 wc2]] tc2]|] eqn:F2; [|done].
  simplify_eq. rewrite <- !(assoc_L (++)) in Hr.
  destruct (Hm _ _ _ _ _ _ _ _ _ _ _ _ _ _ HR E1 E2 Hr) as (-> & HR' & Hr').
  exact (Hk _ _ _ _ _ _ _ _ _ _ _ _ _ _ _ HR' F1 F2 Hr').
Qed.

Lemma between_mono {St A} (R0 R R' R0' : St → St → Prop)
    (m : Exec (St * World) A) :
  (∀ s1 s2, R0 s1 s2 → R s1 s2) → (∀ s1 s2, R' s1 s2 → R0' s1 s2) →
  settled_between R R' m → settled_between R0 R0' m.
Proof.
  intros Hin Hout Hm s1 s2 w1 w2 a1 s1' w1' t1 a2 s2' w2' t2 u1 u2 HR H1 H2 Hr.
  destruct (Hm _ _ _ _ _ _ _ _ _ _ _ _ _ _ (Hin _ _ HR) H1 H2 Hr)
    as (? & ? & ?).
  auto.
Qed.

Lemma between_static_assert {St A} (R R' : St → St → Prop) cond what
    (m : Exec (St * World) A) :
  settled_between R R' m → settled_between R R' (static_assert cond what m).
Proof.
  intros Hm. destruct cond; [exact Hm|].
  by intros s1 s2 w1 w2 a1 s1' w1' t1 a2 s2' w2' t2 u1 u2 HR H1.
Qed.

Lemma between_guard {St} (R : St → St → Prop) (c : bool) :
  settled_between R R (if c then ret () else ret ()).
Proof. destruct c; apply between_ret. Qed.

Lemma between_assign_field {St ks} (R : St → St → Prop) J val
    (d : data_bus ks) :
  settled_between R R (assign_field J val d).
Proof.
  unfold assign_field. destruct (assign J val d);
    [apply between_ret | apply between_ill_formed].
Qed.

(** *** The homogeneous bus *)

Lemma agree_mono {T} (S S' : nat → Prop) (b1 b2 : Bus T) :
  (∀ p, S' p → S p) → agree S b1 b2 → agree S' b1 b2.
Proof.
  intros HS [Hl Hc]. split; [done|]. intros i Hi. apply Hc. by apply HS.
Qed.

Lemma agree_length {T} S (b1 b2 : Bus T) :
  agree S b1 b2 → length b1 = length b2.
Proof. intros [Hl _]. by apply lines_length. Qed.

Lemma agree_line {T} S (b1 b2 : Bus T) i e1 e2 :
  agree S b1 b2 → b1 !! i = Some e1 → b2 !! i = Some e2 → in_ e1 = in_ e2.
Proof.
  intros [Hl _] H1 H2.
  assert (Hi : lines b1 !! i = lines b2 !! i) by (by rewrite Hl).
  unfold lines in Hi. rewrite !list_lookup_fmap, H1, H2 in Hi.
  by injection Hi.
Qed.

Lemma between_N T S : settled_between (agree S) (agree S) (@Bus.N T).
Proof.
  intros s1 s2 w1 w2 a1 s1' w1' t1 a2 s2' w2' t2 u1 u2 HR H1 H2 Hr.
  unfold Bus.N in *. simplify_eq.
  split; [by eapply agree_length|]. by split.
Qed.

Lemma between_index_read T S i inv :
  settled_between (agree S) (agree (λ p, S p ∨ p = i))
    (at_index i (virtual_read T inv)).
Proof.
  intros b1 b2 w1 w2 a1 b1' w1' t1 a2 b2' w2' t2 u1 u2 HR H1 H2 Hr.
  unfold at_index in H1, H2.
  destruct (b1 !! i) as [e1|] eqn:E1; [|done].
  destruct (b2 !! i) as [e2|] eqn:E2; [|done].
  rewrite virtual_read_eq in H1, H2.
  injection H1 as <- <- <- <-. injection H2 as <- <- <- <-.
  pose proof (agree_line S b1 b2 i e1 e2 HR E1 E2) as Hpin.
  unfold raws in Hr. simpl in Hr. injection Hr as Hraw Hrest.
  rewrite Hpin in Hraw. apply as_value_inj in Hraw.
  assert (Hnew : refreshed T (in_ e1) inv w1 0
                 = refreshed T (in_ e2) inv w2 0)
    by (unfold refreshed; by rewrite Hpin, Hraw).
  split; [by rewrite Hpin, Hraw|]. rewrite Hnew. split; [|done].
  destruct HR as [Hl Hc]. split.
  - unfold lines in *. by rewrite !list_fmap_insert, Hl.
  - intros p Hp. destruct (decide (p = i)) as [->|Hne].
    + rewrite !list_lookup_insert_eq; [done|by eapply lookup_lt_Some..].
    + rewrite !list_lookup_insert_ne by done. apply Hc.
      by destruct Hp.
Qed.

Lemma between_index_cached T (S : nat → Prop) i :
  S i →
  settled_between (agree (T := T) S) (agree S)
    (at_index i InputRead.read_cached).
Proof.
  intros Hi b1 b2 w1 w2 a1 b1' w1' t1 a2 b2' w2' t2 u1 u2 HR H1 H2 Hr.
  pose proof (proj2 HR i Hi) as Heq.
  unfold at_index in H1, H2. rewrite <- Heq in H2.
  destruct (b1 !! i) as [e|] eqn:E1; [|done].
  simpl in H1, H2. simplify_eq.
  rewrite (list_insert_id b1 i e E1).
  rewrite (list_insert_id b2 i e); [done|by rewrite <- Heq].
Qed.

Lemma for_each_read_cons T inv (e : InputRead T) l w :
  for_each (let* _ := virtual_read T inv in ret ()) (e :: l) w
  = match for_each (let* _ := virtual_read T inv in ret ()) l (tick w) with
    | Done (l', w', t) =>
        Done (refreshed T (in_ e) inv w 0 :: l', w',
              call T (in_ e) inv w 0 :: t)
    | Abort f => Abort f
    end.
Proof.
  simpl. unfold bind at 1. rewrite virtual_read_eq. simpl.
  by destruct (for_each _ l (tick w)) as [[[? ?] ?]|].
Qed.

Lemma for_each_read_between T inv : ∀ (b1 b2 : Bus T) w1 w2
    b1' w1' t1 b2' w2' t2 u1 u2,
  lines b1 = lines b2 →
  for_each (let* _ := virtual_read T inv in ret ()) b1 w1
  = Done (b1', w1', t1) →
  for_each (let* _ := virtual_read T inv in ret ()) b2 w2
  = Done (b2', w2', t2) →
  raws (t1 ++ u1) = raws (t2 ++ u2) →
  b1' = b2' ∧ raws u1 = raws u2.
Proof.
  induction b1 as [|e1 b1 IH]; intros [|e2 b2] w1 w2 b1' w1' t1 b2' w2' t2
    u1 u2 Hl H1 H2 Hr; try done.
  - simpl in H1, H2. by simplify_eq.
  - rewrite for_each_read_cons in H1, H2.
    destruct (for_each _ b1 (tick w1)) as [[[x1 v1] q1]|] eqn:F1; [|done].
    destruct (for_each _ b2 (tick w2)) as [[[x2 v2] q2]|] eqn:F2; [|done].
    injection H1 as <- <- <-. injection H2 as <- <- <-.
    unfold lines in Hl. simpl in Hl. injection Hl as Hpin Hl.
    unfold raws in Hr. simpl in Hr. injection Hr as Hraw Hrest.
    rewrite Hpin in Hraw. apply as_value_inj in Hraw.
    destruct (IH b2 _ _ _ _ _ _ _ _ _ _ Hl F1 F2 Hrest) as (-> & Hu).
    split; [|done]. unfold refreshed. by rewrite Hpin, Hraw.
Qed.

Lemma between_read_all T (S : nat → Prop) inv :
  settled_between (agree S) (agree (λ _, True)) (@Bus.read_all T inv).
Proof.
  intros b1 b2 w1 w2 a1 b1' w1' t1 a2 b2' w2' t2 u1 u2 [Hl _] H1 H2 Hr.
  unfold Bus.read_all in H1, H2.
  destruct (for_each _ b1 w1) as [[[x1 v1] q1]|] eqn:F1; [|done].
  destruct (for_each _ b2 w2) as [[[x2 v2] q2]|] eqn:F2; [|done].
  simplify_eq.
  destruct (for_each_read_between T inv _ _ _ _ _ _ _ _ _ _ _ _ Hl F1 F2 Hr)
    as (-> & Hu).
  by repeat split.
Qed.

Lemma between_read T Index : ∀ I inv (S : nat → Prop),
  settled_between (agree S) (agree (λ p, S p ∨ p ∈ I :: Index))
    (@Bus.read T I Index inv).
Proof.
  induction Index as [|In Index IH]; intros I inv S; simpl.
  - eapply between_bind; [apply between_N|]. intros n.
    apply between_static_assert.
    eapply between_bind; [apply between_index_read|]. intros _.
    eapply between_mono; [done| |apply between_ret].
    intros b1 b2. apply agree_mono. intros p [Hp|Hp]; [by left|].
    right. by apply list_elem_of_singleton in Hp.
  - eapply between_bind; [apply between_N|]. intros n.
    apply between_static_assert.
    eapply between_bind; [apply between_index_read|]. intros _.
    eapply between_mono; [done| |apply IH].
    intros b1 b2. apply agree_mono. intros p [Hp|Hp]; [by left; left|].
    apply elem_of_cons in Hp as [->|Hp]; [left; by right|by right].
Qed.

Lemma between_read_ids T ids inv : ∀ S : nat → Prop,
  settled_between (agree S) (agree (λ p, S p ∨ p ∈ ids))
    (@Bus.read_ids T ids inv).
Proof.
  induction ids as [|id ids IH]; intros S; simpl.
  - eapply between_mono; [done| |apply between_ret].
    intros b1 b2. apply agree_mono. intros p [Hp|Hp]; [done|].
    by apply elem_of_nil in Hp.
  - eapply between_bind; [apply between_N|]. intros n.
    eapply between_bind; [apply between_guard|]. intros _.
    eapply between_bind; [apply between_index_read|]. intros _.
    eapply between_mono; [done| |apply IH].
    intros b1 b2. apply agree_mono. intros p [Hp|Hp]; [by left; left|].
    apply elem_of_cons in Hp as [->|Hp]; [left; by right|by right].
Qed.

Lemma between_Bus_call T op (S : nat → Prop) :
  reads_sampled op S →
  settled_between (agree S) (agree (sampled_by op S)) (@Bus_call T op).
Proof.
  destruct op as [i|i|inv|i Index inv|ids inv]; simpl; intros Hs.
  - eapply between_bind; [|intros; apply between_ret].
    unfold Bus.operator_index.
    eapply between_bind; [apply between_N|]. intros n.
    eapply between_bind; [apply between_guard|]. intros _.
    by apply between_index_cached.
  - eapply between_bind; [|intros; apply between_ret].
    unfold Bus.get.
    eapply between_bind; [apply between_N|]. intros n.
    apply between_static_assert. by apply between_index_cached.
  - eapply between_bind; [apply between_read_all|].
    intros; apply between_ret.
  - eapply between_bind; [apply between_read|].
    intros; apply between_ret.
  - eapply between_bind; [apply between_read_ids|].
    intros; apply between_ret.
Qed.

Lemma between_run {St Op} (Rel : (nat → Prop) → St → St → Prop)
    (reads : Op → (nat → Prop) → Prop)
    (step : Op → (nat → Prop) → nat → Prop)
    (call : Op → Exec (St * World) Returned) :
  (∀ op S, reads op S →
     settled_between (Rel S) (Rel (step op S)) (call op)) →
  ∀ ops S, well_sampled reads step S ops →
    settled_between (Rel S) (Rel (sampled_after step S ops)) (run call ops).
Proof.
  intros Hcall ops. induction ops as [|op ops IH]; intros S Hws; simpl.
  - apply between_ret.
  - destruct Hws as [Hop Hws].
    eapply between_bind; [by apply Hcall|]. intros r.
    eapply between_bind; [by apply IH|]. intros rs.
    apply between_ret.
Qed.

(** *** The heterogeneous bus *)

Lemma vagree_mono {T} (S S' : nat → Prop) (b1 b2 : VBus T) :
  (∀ p, S' p → S p) → vagree S b1 b2 → vagree S' b1 b2.
Proof.
  intros HS [Hl Hc]. split; [done|]. intros i Hi. apply Hc. by apply HS.
Qed.

Lemma between_VBus_read T (S : nat → Prop) I inv :
  settled_between (vagree S) (vagree (λ p, S p ∨ p = I))
    (@VBus.read T I inv).
Proof.
  intros b1 b2 w1 w2 a1 b1' w1' t1 a2 b2' w2' t2 u1 u2 [Hl Hc] H1 H2 Hr.
  destruct (decide (I < length T)) as [HI|HI];
    [|rewrite VBus_read_ill in H1; [done|lia]].
  destruct (VBus_read_run b1 I inv w1 HI)
    as (k1 & c1 & x1 & Hg1 & Hr1 & Hn1 & Hf1).
  destruct (VBus_read_run b2 I inv w2 HI)
    as (k2 & c2 & x2 & Hg2 & Hr2 & Hn2 & Hf2).
  pose proof (VBus_read_keeps_lines _ _ _ _ _ _ _ _ Hr1) as Hk1.
  pose proof (VBus_read_keeps_lines _ _ _ _ _ _ _ _ Hr2) as Hk2.
  rewrite Hr1 in H1. rewrite Hr2 in H2.
  injection H1 as <- <- <- <-. injection H2 as <- <- <- <-.
  pose proof (Hl I) as Hline. unfold line_of in Hline.
  rewrite Hg1, Hg2 in Hline. injection Hline as Hk Hpin. subst k2.
  unfold raws in Hr. simpl in Hr. injection Hr as Hraw Hrest.
  rewrite Hpin in Hraw. apply as_value_inj in Hraw.
  assert (Hnew : refreshed k1 (in_ c1) inv w1 0
                 = refreshed k1 (in_ c2) inv w2 0)
    by (unfold refreshed; by rewrite Hpin, Hraw).
  split; [by rewrite Hpin, Hraw|]. rewrite Hnew in *.
  split; [|done]. split.
  - intros p. by rewrite Hk1, Hk2.
  - intros p Hp. destruct (decide (p = I)) as [->|Hne].
    + by rewrite Hn1, Hn2.
    + rewrite (Hf1 p Hne), (Hf2 p Hne). apply Hc. by destruct Hp.
Qed.

Lemma between_VBus_get T (S : nat → Prop) I :
  S I → settled_between (vagree S) (vagree S) (@VBus.get T I).
Proof.
  intros Hi b1 b2 w1 w2 a1 b1' w1' t1 a2 b2' w2' t2 u1 u2 HR H1 H2 Hr.
  destruct (decide (I < length T)) as [HI|HI];
    [|rewrite VBus_get_ill in H1; [done|lia]].
  destruct (tget_is_Some b1 I HI) as (k & c & Hg1).
  pose proof (proj2 HR I Hi) as Heq. rewrite Hg1 in Heq.
  rewrite (VBus_get_run b1 I k c w1 Hg1) in H1.
  rewrite (VBus_get_run b2 I k c w2 (eq_sym Heq)) in H2.
  by simplify_eq.
Qed.

Lemma between_read_iter T ks Index : ∀ I (d : data_bus ks) inv
    (S : nat → Prop),
  settled_between (vagree S) (vagree (λ p, S p ∨ p ∈ I :: Index))
    (VBus.read_iter (T := T) I Index d inv).
Proof.
  induction Index as [|In Index IH]; intros I d inv S; simpl.
  - eapply between_bind; [apply between_VBus_read|]. intros val.
    eapply between_mono; [done| |apply between_assign_field].
    intros b1 b2. apply vagree_mono. intros p [Hp|Hp]; [by left|].
    right. by apply list_elem_of_singleton in Hp.
  - eapply between_bind; [apply between_VBus_read|]. intros val.
    eapply between_bind; [apply between_assign_field|]. intros d'.
    eapply between_mono; [done| |apply IH].
    intros b1 b2. apply vagree_mono. intros p [Hp|Hp]; [by left; left|].
    apply elem_of_cons in Hp as [->|Hp]; [left; by right|by right].
Qed.

Lemma between_read_list T I In Index inv (S : nat → Prop) :
  settled_between (vagree S) (vagree (λ p, S p ∨ p ∈ I :: In :: Index))
    (VBus.read_list (T := T) I In Index inv).
Proof.
  unfold VBus.read_list. destruct (bound_kinds _ _);
    [|apply between_ill_formed].
  eapply between_bind; [apply between_read_iter|].
  intros; apply between_ret.
Qed.

Lemma between_read_all_iter T ks I : ∀ (d : data_bus ks) inv
    (Q : nat → Prop),
  settled_between (vagree Q) (vagree (λ p, Q p ∨ (p ≤ I ∧ p ≠ 1)))
    (VBus.read_all_iter (T := T) I d inv).
Proof.
  induction I as [|I IH]; intros d inv Q.
  - simpl. eapply between_bind; [apply between_VBus_read|]. intros val.
    eapply between_bind; [apply between_assign_field|]. intros d'.
    apply between_ill_formed.
  - destruct I as [|I].
    + simpl. eapply between_bind; [apply between_VBus_read|]. intros val.
      eapply between_mono; [done| |apply between_assign_field].
      intros b1 b2. apply vagree_mono. intros p [Hp|[Hp Hne]]; [by left|].
      right. lia.
    + change (settled_between (vagree Q)
                (vagree (λ p, Q p ∨ (p ≤ S (S I) ∧ p ≠ 1)))
                (let* read_val := VBus.read (S (S I)) inv in
                 let* data' := assign_field (S (S I)) read_val d in
                 VBus.read_all_iter (T := T) (S I) data' inv)).
      eapply between_bind; [apply between_VBus_read|]. intros val.
      eapply between_bind; [apply between_assign_field|]. intros d'.
      eapply between_mono; [done| |apply IH].
      intros b1 b2. apply vagree_mono.
      intros p [Hp|[Hp Hne]]; [by left; left|].
      destruct (decide (p = S (S I))) as [->|Hp']; [left; by right|].
      right. lia.
Qed.

Lemma between_VBus_read_all T inv (S : nat → Prop) :
  settled_between (vagree S)
    (vagree (λ p, S p ∨ (p < length T ∧ p ≠ 1)))
    (VBus.read_all (T := T) inv).
Proof.
  unfold VBus.read_all. destruct (length T) as [|last];
    [apply between_ill_formed|].
  eapply between_mono; [done| |apply between_read_all_iter].
  intros b1 b2. apply vagree_mono. intros p [Hp|[Hp Hne]]; [by left|].
  right. lia.
Qed.

Lemma between_VBus_call T op (S : nat → Prop) :
  vreads_sampled op S →
  settled_between (vagree S) (vagree (vsampled_by (length T) op S))
    (@VBus_call _ T op).
Proof.
  destruct op as [i|inv|i inv|i In Index inv]; simpl; intros Hs.
  - eapply between_bind; [by apply between_VBus_get|].
    intros; apply between_ret.
  - eapply between_bind; [apply between_VBus_read_all|].
    intros; apply between_ret.
  - eapply between_bind; [apply between_VBus_read|].
    intros; apply between_ret.
  - eapply between_bind; [apply between_read_list|].
    intros; apply between_ret.
Qed.

End Settled.

(** C10, as the code has it.  Take two buses over the same lines whose
    caches are the same at the positions of [Q] and anything elsewhere, for
    instance two buses just constructed, with [Q] empty.  Take a program
    all of whose positions are inside the bus and that reads from the cache
    ([operator[]], [get]) only positions of [Q] or positions it has sampled
    before.  Then both runs complete, on any two states of the hardware,
    and if the lines returned the same raw samples, call for call, the two
    runs return the same values and records and end with the same cached
    value at every position of [Q] and every position the program
    sampled. *)
Theorem C10_sampled_reads_follow_the_samples :
  (∀ T (Q : nat → Prop) ops (b1 b2 : Bus T) w1 w2,
     agree Q b1 b2 →
     well_sampled reads_sampled sampled_by Q ops →
     Forall (inside (length b1)) ops →
     ∃ rs1 b1' w1' t1 rs2 b2' w2' t2,
       run Bus_call ops (b1, w1) = Done (rs1, (b1', w1'), t1)
       ∧ run Bus_call ops (b2, w2) = Done (rs2, (b2', w2'), t2)
       ∧ (raws t1 = raws t2 →
          rs1 = rs2 ∧ agree (sampled_after sampled_by Q ops) b1' b2'))
  ∧ (∀ (C : Conversions) T (Q : nat → Prop) ops (b1 b2 : VBus T) w1 w2,
       vagree Q b1 b2 →
       well_sampled vreads_sampled (vsampled_by (length T)) Q ops →
       Forall (vinside (length T)) ops →
       ∃ rs1 b1' w1' t1 rs2 b2' w2' t2,
         run VBus_call ops (b1, w1) = Done (rs1, (b1', w1'), t1)
         ∧ run VBus_call ops (b2, w2) = Done (rs2, (b2', w2'), t2)
         ∧ (raws t1 = raws t2 →
            rs1 = rs2
            ∧ vagree (sampled_after (vsampled_by (length T)) Q ops)
                b1' b2')).
Proof.
  split.
  - intros T Q ops b1 b2 w1 w2 Hag Hws Hin.
    destruct (run_Bus_inside ops b1 w1 Hin) as (rs1 & x1 & v1 & t1 & H1).
    rewrite (agree_length Q b1 b2 Hag) in Hin.
    destruct (run_Bus_inside ops b2 w2 Hin) as (rs2 & x2 & v2 & t2 & H2).
    exists rs1, x1, v1, t1, rs2, x2, v2, t2.
    split; [done|]. split; [done|]. intros Hr.
    pose proof (between_run (@agree T) reads_sampled sampled_by Bus_call
                  (between_Bus_call T) ops Q Hws) as Hs.
    destruct (Hs b1 b2 w1 w2 _ _ _ _ _ _ _ _ [] [] Hag H1 H2)
      as (? & ? & _); [by rewrite !app_nil_r|done].
  - intros C T Q ops b1 b2 w1 w2 Hag Hws Hin.
    destruct (run_VBus_inside ops b1 w1 Hin) as (rs1 & x1 & v1 & t1 & H1).
    destruct (run_VBus_inside ops b2 w2 Hin) as (rs2 & x2 & v2 & t2 & H2).
    exists rs1, x1, v1, t1, rs2, x2, v2, t2.
    split; [done|]. split; [done|]. intros Hr.
    pose proof (between_run (@vagree T) vreads_sampled
                  (vsampled_by (length T)) VBus_call
                  (between_VBus_call T) ops Q Hws) as Hs.
    destruct (Hs b1 b2 w1 w2 _ _ _ _ _ _ _ _ [] [] Hag H1 H2)
      as (? & ? & _); [by rewrite !app_nil_r|done].
Qed.

(** C10 refuted as stated: two one-wide binary buses on the same line, one
    caching 0 and one caching 1, run the same one-operation program
    [bus[0]]; neither run makes a hardware call, so the raw samples agree,
    and the two indexed reads differ.  Both caches are ones the code
    leaves: [read_all] takes each of the two buses to the other.  And the
    program [bus[1]], of a position outside these buses, goes to the
    element past the array, for which the code defines no value. *)
Lemma C10_unsampled_read_differs :
  Bus.read_all true (dbus1_high, all_high)
  = Done ((), (dbus1_low, tick all_high), [call Digital 10 true all_high 0])
  ∧ Bus.read_all false (dbus1_low, all_high)
    = Done ((), (dbus1_high, tick all_high),
            [call Digital 10 false all_high 0])
  ∧ lines dbus1_low = lines dbus1_high
  ∧ run Bus_call [BusIndex 0] (dbus1_low, all_high)
    = Done ([Single (as_value (k := Digital) 0%Z)],
            (dbus1_low, all_high), [])
  ∧ run Bus_call [BusIndex 0] (dbus1_high, all_high)
    = Done ([Single (as_value (k := Digital) 1%Z)],
            (dbus1_high, all_high), [])
  ∧ [Single (as_value (k := Digital) 0%Z)]
    ≠ [Single (as_value (k := Digital) 1%Z)]
  ∧ run Bus_call [BusIndex 1] (dbus1_low, all_high) = Abort (StrayAccess 1)
  ∧ run Bus_call [BusIndex 1] (dbus1_high, all_high)
    = Abort (StrayAccess 1).
Proof.
  do 5 (split; [reflexivity|]).
  split; [|split; reflexivity].
  intros Heq.
  assert (as_value (k := Digital) 0%Z = as_value (k := Digital) 1%Z) as Hv.
  { apply (f_equal (λ l, match l with
                         | [Single v] => v
                         | _ => as_value (k := Digital) 0%Z
                         end)) in Heq. exact Heq. }
  apply as_value_inj in Hv. discriminate.
Qed.

(** C10 on the sample program over two three-wide binary buses with
    different caches, and on a program over two buses of kinds (binary,
    analog, binary) with different caches; in each pair of runs the lines
    blink, and the second run starts one hardware read later on lines one
    step out of phase, so that the two states of the hardware differ at
    every read count and still answer the same, call for call. *)
Lemma C10_witness :
  (∃ rs b1' w1' t1 b2' w2' t2,
     run Bus_call sample_program (dbus3, blinking 0)
     = Done (rs, (b1', w1'), t1)
     ∧ run Bus_call sample_program (dbus3', tick (blinking 1))
       = Done (rs, (b2', w2'), t2)
     ∧ raws t1 = raws t2
     ∧ agree (sampled_after sampled_by (λ _, False) sample_program)
         b1' b2')
  ∧ (∃ rs b1' w1' t1 b2' w2' t2,
       run (VBus_call (H := plain_conversions)) sampled_vprogram
         (vbus3, blinking 0) = Done (rs, (b1', w1'), t1)
       ∧ run (VBus_call (H := plain_conversions)) sampled_vprogram
           (vbus3', tick (blinking 1)) = Done (rs, (b2', w2'), t2)
       ∧ raws t1 = raws t2
       ∧ vagree (sampled_after (vsampled_by 3) (λ _, False)
                   sampled_vprogram) b1' b2').
Proof.
  destruct C10_sampled_reads_follow_the_samples as [Hbus Hvbus].
  split.
  - destruct (Hbus Digital (λ _, False) sample_program dbus3 dbus3'
                (blinking 0) (tick (blinking 1)))
      as (rs1 & b1' & w1' & t1 & rs2 & b2' & w2' & t2 & H1 & H2 & Hsame).
    { split; [reflexivity|]. by intros i []. }
    { simpl. repeat split; auto. }
    { repeat constructor. }
    assert (raws t1 = raws t2) as Hr.
    { pose proof H1 as E1. pose proof H2 as E2.
      vm_compute in E1. vm_compute in E2.
      injection E1 as _ _ _ <-. injection E2 as _ _ _ <-. reflexivity. }
    destruct (Hsame Hr) as [<- Hag].
    by exists rs1, b1', w1', t1, b2', w2', t2.
  - destruct (Hvbus plain_conversions _ (λ _, False) sampled_vprogram
                vbus3 vbus3' (blinking 0) (tick (blinking 1)))
      as (rs1 & b1' & w1' & t1 & rs2 & b2' & w2' & t2 & H1 & H2 & Hsame).
    { split; [intros [|[|[|p]]]; reflexivity|]. by intros i []. }
    { simpl. repeat split; try done.
      - right. split; [lia|done].
      - right. apply elem_of_cons. right. apply elem_of_cons. by left. }
    { repeat constructor. }
    assert (raws t1 = raws t2) as Hr.
    { pose proof H1 as E1. pose proof H2 as E2.
      vm_compute in E1. vm_compute in E2.
      injection E1 as _ _ _ <-. injection E2 as _ _ _ <-. reflexivity. }
    destruct (Hsame Hr) as [<- Hag].
    by exists rs1, b1', w1', t1, b2', w2', t2.
Defined.
